(** * ApiBuilder (src/App.tsx): request assembly, dispatch and export

    A shallow embedding of the logic of the [ApiBuilder] React component:
    the key/value list handlers, the assembly of the outbound request in
    [handleTestApi], the outcome handling around [fetch], the exported
    configuration of [handleExport] and [loadExample].

    Conventions.
    - A JavaScript string is a [string]: the bytes of its UTF-8 text.
    - [Date.now()] is an input of the handlers that read the clock, one
      input for each call.
    - [fetch] is an input of [handleTestApi]: what the transport answers.
    - The platform objects the component uses ([String.prototype.trim],
      ordinary objects used as records, [URLSearchParams], [Headers],
      [JSON.stringify]) are embedded from their standards (ECMA-262, WHATWG
      URL and Fetch), as far as the component exercises them. *)

From Stdlib Require Import String Ascii List ZArith Bool Lia.
From Stdlib Require Import DecimalString Permutation.
Import ListNotations.

Set Warnings "-register-all,-notation-for-abbreviation".

Local Open Scope list_scope.
Local Open Scope string_scope.

(** ** JavaScript strings *)

Module JSString.

Definition code (c : ascii) : N := N_of_ascii c.

Definition chr (n : N) : string := String (ascii_of_N n) "".

(** The quotation mark and the reverse solidus, which a literal cannot
    hold conveniently. *)
Definition dquote : string := chr 34.
Definition backslash : string := chr 92.
Definition LF : string := chr 10.

Definition reverse (s : string) : string :=
  string_of_list_ascii (List.rev (list_ascii_of_string s)).

(** ECMA-262 WhiteSpace and LineTerminator code points, as UTF-8.
    One byte: TAB, LF, VT, FF, CR, SP. *)
Definition isWhiteSpace1 (c : ascii) : bool :=
  let n := code c in
  ((9 <=? n) && (n <=? 13) || (n =? 32))%N.

(** Two bytes: U+00A0 (C2 A0). *)
Definition isWhiteSpace2 (c1 c2 : ascii) : bool :=
  ((code c1 =? 194) && (code c2 =? 160))%N.

(** Three bytes: U+1680 (E1 9A 80), U+2000..U+200A (E2 80 80..8A),
    U+2028, U+2029 (E2 80 A8, A9), U+202F (E2 80 AF), U+205F (E2 81 9F),
    U+3000 (E3 80 80), U+FEFF (EF BB BF). *)
Definition isWhiteSpace3 (c1 c2 c3 : ascii) : bool :=
  let '(a, b, c) := (code c1, code c2, code c3) in
  ((a =? 225) && (b =? 154) && (c =? 128)
   || (a =? 226) && (b =? 128)
      && ((128 <=? c) && (c <=? 138) || (c =? 168) || (c =? 169) || (c =? 175))
   || (a =? 226) && (b =? 129) && (c =? 159)
   || (a =? 227) && (b =? 128) && (c =? 128)
   || (a =? 239) && (b =? 187) && (c =? 191))%N.

(** Strips the white space at the front of [s]. With [backwards] the
    string is one that was reversed, so that the bytes of a character
    come last byte first. *)
Fixpoint stripWhiteSpace (backwards : bool) (s : string) : string :=
  match s with
  | String c1 r1 =>
      if isWhiteSpace1 c1 then stripWhiteSpace backwards r1 else
      match r1 with
      | String c2 r2 =>
          if (if backwards then isWhiteSpace2 c2 c1 else isWhiteSpace2 c1 c2)
          then stripWhiteSpace backwards r2 else
          match r2 with
          | String c3 r3 =>
              if (if backwards then isWhiteSpace3 c3 c2 c1
                  else isWhiteSpace3 c1 c2 c3)
              then stripWhiteSpace backwards r3 else s
          | EmptyString => s
          end
      | EmptyString => s
      end
  | EmptyString => s
  end.

Definition trimStart (s : string) : string := stripWhiteSpace false s.

Definition trimEnd (s : string) : string :=
  reverse (stripWhiteSpace true (reverse s)).

(** [String.prototype.trim]. *)
Definition trim (s : string) : string := trimEnd (trimStart s).

(** [s !== ''], which is also the truthiness of a string. *)
Definition nonEmpty (s : string) : bool :=
  match s with EmptyString => false | String _ _ => true end.

(** [Array.prototype.join] on strings. *)
Fixpoint join (sep : string) (l : list string) : string :=
  match l with
  | [] => ""
  | [x] => x
  | x :: rest => x ++ sep ++ join sep rest
  end.

Definition hexDigit (upper : bool) (n : N) : string :=
  chr (if (n <? 10)%N then 48 + n else (if upper then 55 else 87) + n)%N.

(** The two hexadecimal digits of a byte. *)
Definition hexByte (upper : bool) (c : ascii) : string :=
  hexDigit upper (code c / 16)%N ++ hexDigit upper (code c mod 16)%N.

Definition concatMap (f : ascii -> string) (s : string) : string :=
  String.concat "" (List.map f (list_ascii_of_string s)).

(** Number::toString of an integral Number of magnitude below 10^21:
    its decimal digits. *)
Definition ofInteger (z : Z) : string := NilZero.string_of_int (Z.to_int z).

End JSString.

Import JSString.

(** ** JavaScript values and [JSON.stringify] *)

(** The values the component builds or receives. A finite Number is
    carried by its Number::toString text; the numbers the component makes
    itself (ids, the status code) are integers, see [JSON.ofZ]. *)
Inductive JSValue : Type :=
| VUndefined
| VNull
| VBool (b : bool)
| VNumber (text : string)
| VString (s : string)
| VArray (items : list JSValue)
| VObject (props : list (string * JSValue)).

Module JSON.

Definition ofZ (z : Z) : JSValue := VNumber (ofInteger z).

(** ECMA-262 QuoteJSONString, on UTF-8 text. *)
Definition quoteChar (c : ascii) : string :=
  let n := code c in
  if (n =? 8)%N then backslash ++ "b"
  else if (n =? 9)%N then backslash ++ "t"
  else if (n =? 10)%N then backslash ++ "n"
  else if (n =? 12)%N then backslash ++ "f"
  else if (n =? 13)%N then backslash ++ "r"
  else if (n =? 34)%N then backslash ++ dquote
  else if (n =? 92)%N then backslash ++ backslash
  else if (n <? 32)%N then backslash ++ "u00" ++ hexByte false c
  else String c "".

Definition QuoteJSONString (s : string) : string :=
  dquote ++ concatMap quoteChar s ++ dquote.

(** ECMA-262 SerializeJSONProperty with SerializeJSONObject and
    SerializeJSONArray, for a non-empty [gap] and no replacer. [None] is
    [undefined]. *)
Fixpoint SerializeJSONProperty (gap indent : string) (v : JSValue)
  : option string :=
  match v with
  | VUndefined => None
  | VNull => Some "null"
  | VBool true => Some "true"
  | VBool false => Some "false"
  | VNumber text => Some text
  | VString s => Some (QuoteJSONString s)
  | VArray items =>
      let stepback := indent in
      let indent := indent ++ gap in
      let partial :=
        List.map (fun x =>
               match SerializeJSONProperty gap indent x with
               | Some strP => strP
               | None => "null"
               end) items in
      match partial with
      | [] => Some "[]"
      | _ =>
          let separator := "," ++ LF ++ indent in
          Some ("[" ++ LF ++ indent ++ join separator partial
                    ++ LF ++ stepback ++ "]")
      end
  | VObject props =>
      let stepback := indent in
      let indent := indent ++ gap in
      let partial :=
        List.flat_map (fun p =>
               match SerializeJSONProperty gap indent (snd p) with
               | Some strP => [QuoteJSONString (fst p) ++ ": " ++ strP]
               | None => []
               end) props in
      match partial with
      | [] => Some "{}"
      | _ =>
          let separator := "," ++ LF ++ indent in
          Some ("{" ++ LF ++ indent ++ join separator partial
                    ++ LF ++ stepback ++ "}")
      end
  end.

(** [JSON.stringify(value, null, space)] for a number [space] of 1 to 10
    blanks. *)
Definition stringify (v : JSValue) (space : nat) : option string :=
  SerializeJSONProperty (string_of_list_ascii (List.repeat " "%char space)) "" v.

End JSON.

(** ** Ordinary objects used as records of strings *)

Module JSObject.

(** The own data properties, in order of creation. *)
Definition t : Type := list (string * string).

Definition digit (c : ascii) : option Z :=
  let n := code c in
  if ((48 <=? n) && (n <=? 57))%N then Some (Z.of_N n - 48)%Z else None.

Fixpoint parseDigits (acc : Z) (s : string) : option Z :=
  match s with
  | EmptyString => Some acc
  | String c r =>
      match digit c with
      | Some d => parseDigits (10 * acc + d)%Z r
      | None => None
      end
  end.

(** ECMA-262 array index: a canonical numeric string (decimal digits
    without a leading zero) of value at most 2^32 - 2. *)
Definition arrayIndex (k : string) : option Z :=
  match k with
  | EmptyString => None
  | _ =>
      match parseDigits 0 k with
      | Some n =>
          if (ofInteger n =? k) && (n <=? 4294967294)%Z then Some n else None
      | None => None
      end
  end.

Definition isArrayIndex (k : string) : bool :=
  match arrayIndex k with Some _ => true | None => false end.

(** [o[k] = v] where no setter is inherited: the value of an own property
    is replaced where it stands, a new property is created last. *)
Fixpoint define (k v : string) (o : t) : t :=
  match o with
  | [] => [(k, v)]
  | (k', v') :: rest =>
      if k' =? k then (k', v) :: rest else (k', v') :: define k v rest
  end.

(** [o[k] = v] on an object created by a literal. The one setter it
    inherits is [Object.prototype.__proto__], which ignores a value that
    is neither an object nor null and creates no property. *)
Definition set (k v : string) (o : t) : t :=
  if k =? "__proto__" then o else define k v o.

Fixpoint insertByIndex (x : Z * (string * string))
         (l : list (Z * (string * string))) : list (Z * (string * string)) :=
  match l with
  | [] => [x]
  | y :: rest =>
      if (fst x <=? fst y)%Z then x :: l else y :: insertByIndex x rest
  end.

Definition indexed (o : t) : list (Z * (string * string)) :=
  List.flat_map (fun p => match arrayIndex (fst p) with
                          | Some n => [(n, p)]
                          | None => []
                          end) o.

(** OrdinaryOwnPropertyKeys, with the values: the array indices in
    ascending order, then the other keys in order of creation. *)
Definition ownEntries (o : t) : list (string * string) :=
  (List.map snd (List.fold_right insertByIndex [] (indexed o))
   ++ List.filter (fun p => negb (isArrayIndex (fst p))) o)%list.

End JSObject.

(** ** [URLSearchParams] (WHATWG URL) *)

Module URLSearchParams.

(** The code points outside the application/x-www-form-urlencoded
    percent-encode set: ASCII alphanumerics and [*], [-], [.], [_]. *)
Definition unreserved (c : ascii) : bool :=
  let n := code c in
  ((48 <=? n) && (n <=? 57) || (65 <=? n) && (n <=? 90)
   || (97 <=? n) && (n <=? 122)
   || (n =? 42) || (n =? 45) || (n =? 46) || (n =? 95))%N.

(** Percent-encode after encoding (UTF-8), with space as plus. *)
Definition encodeByte (c : ascii) : string :=
  if (code c =? 32)%N then "+"
  else if unreserved c then String c ""
  else "%" ++ hexByte true c.

Definition percentEncode (s : string) : string := concatMap encodeByte s.

(** [new URLSearchParams(record)]: a name-value pair for each own
    enumerable property of the record. *)
Definition ofRecord (o : JSObject.t) : list (string * string) :=
  JSObject.ownEntries o.

(** The application/x-www-form-urlencoded serializer. *)
Definition toString (tuples : list (string * string)) : string :=
  List.fold_left
    (fun output tuple =>
       (if nonEmpty output then output ++ "&" else output)
       ++ percentEncode (fst tuple) ++ "=" ++ percentEncode (snd tuple))
    tuples "".

End URLSearchParams.

(** ** Completions *)

(** The outcome of synchronous code that may throw; what is thrown is
    kept by the name of the error. *)
Inductive completion (A : Type) : Type :=
| Return (a : A)
| Throw (error : string).
Arguments Return {A} a.
Arguments Throw {A} error.

Definition bind {A B : Type} (c : completion A) (k : A -> completion B)
  : completion B :=
  match c with
  | Return a => k a
  | Throw error => Throw error
  end.

Notation "x <- c ;; k" := (bind c (fun x => k))
  (at level 61, c at next level, right associativity).

(** ** [Headers] (WHATWG Fetch) *)

Module Headers.

(** A header list. *)
Definition t : Type := list (string * string).

(** HTTP whitespace bytes: TAB, LF, CR, SP. *)
Definition isHTTPWhitespace (c : ascii) : bool :=
  let n := code c in ((n =? 9) || (n =? 10) || (n =? 13) || (n =? 32))%N.

Fixpoint stripLeading (s : string) : string :=
  match s with
  | String c r => if isHTTPWhitespace c then stripLeading r else s
  | EmptyString => s
  end.

(** Normalize a byte sequence: no leading or trailing HTTP whitespace. *)
Definition normalize (v : string) : string :=
  reverse (stripLeading (reverse (stripLeading v))).

(** RFC 9110 tchar. *)
Definition isTchar (c : ascii) : bool :=
  let n := code c in
  ((48 <=? n) && (n <=? 57) || (65 <=? n) && (n <=? 90)
   || (97 <=? n) && (n <=? 122)
   || (n =? 33) || (35 <=? n) && (n <=? 39) || (n =? 42) || (n =? 43)
   || (n =? 45) || (n =? 46) || (n =? 94) || (n =? 95) || (n =? 96)
   || (n =? 124) || (n =? 126))%N.

Definition isHeaderName (name : string) : bool :=
  nonEmpty name && List.forallb isTchar (list_ascii_of_string name).

(** WebIDL ByteString: every code point is at most U+00FF, which in
    UTF-8 is an ASCII byte or a lead byte C2 or C3 with its trail byte. *)
Fixpoint isByteString (s : string) : bool :=
  match s with
  | EmptyString => true
  | String c1 r1 =>
      if (code c1 <? 128)%N then isByteString r1 else
      match r1 with
      | String c2 r2 =>
          ((code c1 =? 194) || (code c1 =? 195))%N
          && ((128 <=? code c2) && (code c2 <? 192))%N
          && isByteString r2
      | EmptyString => false
      end
  end.

(** A header value: no NUL, LF or CR, no HTTP tab or space at either
    end. *)
Definition isHeaderValue (v : string) : bool :=
  List.forallb (fun c => negb ((code c =? 0) || (code c =? 10) || (code c =? 13))%N)
               (list_ascii_of_string v)
  && (v =? normalize v).

Definition byteLowercase (c : ascii) : ascii :=
  let n := code c in
  if ((65 <=? n) && (n <=? 90))%N then ascii_of_N (n + 32) else c.

Definition lowercase (s : string) : string :=
  string_of_list_ascii (List.map byteLowercase (list_ascii_of_string s)).

(** Byte-case-insensitive match. *)
Definition sameName (a b : string) : bool := lowercase a =? lowercase b.

(** Append a header to a header list: the name takes the case of the
    first header of that name already in the list. *)
Definition appendHeader (name value : string) (headerList : t) : t :=
  let name := match List.find (fun h => sameName (fst h) name) headerList with
              | Some h => fst h
              | None => name
              end in
  (headerList ++ [(name, value)])%list.

(** [Headers.prototype.append] on an object whose guard is none: the
    arguments are converted to ByteString, the value is normalized, and
    the name and the value are validated; a failure is a TypeError. *)
Definition append (name value : string) (headerList : t) : completion t :=
  if negb (isByteString name && isByteString value)
  then Throw "TypeError"
  else
    let value := normalize value in
    if negb (isHeaderName name && isHeaderValue value)
    then Throw "TypeError"
    else Return (appendHeader name value headerList).

(** Get a header: the values of all the headers of that name, in order,
    separated by a comma and a space. *)
Definition get (name : string) (headerList : t) : option string :=
  match List.filter (fun h => sameName (fst h) name) headerList with
  | [] => None
  | hs => Some (join ", " (List.map snd hs))
  end.

End Headers.

(** ** The component state *)

(** [interface KeyValue]. *)
Record KeyValue : Type := mkKeyValue { id : Z; key : string; value : string }.

(** The [useState] cells of [ApiBuilder]. *)
Record State : Type := mkState {
  apiUrl : string;
  apiMethod : string;
  queryParams : list KeyValue;
  headers : list KeyValue;
  requestBody : string;
  response : option string;
  isLoading : bool;
  error : option string
}.

Definition setApiUrl (v : string) (s : State) : State :=
  mkState v (apiMethod s) (queryParams s) (headers s) (requestBody s)
          (response s) (isLoading s) (error s).

Definition setApiMethod (v : string) (s : State) : State :=
  mkState (apiUrl s) v (queryParams s) (headers s) (requestBody s)
          (response s) (isLoading s) (error s).

Definition setQueryParams (v : list KeyValue) (s : State) : State :=
  mkState (apiUrl s) (apiMethod s) v (headers s) (requestBody s)
          (response s) (isLoading s) (error s).

Definition setHeaders (v : list KeyValue) (s : State) : State :=
  mkState (apiUrl s) (apiMethod s) (queryParams s) v (requestBody s)
          (response s) (isLoading s) (error s).

Definition setRequestBody (v : string) (s : State) : State :=
  mkState (apiUrl s) (apiMethod s) (queryParams s) (headers s) v
          (response s) (isLoading s) (error s).

Definition setResponse (v : option string) (s : State) : State :=
  mkState (apiUrl s) (apiMethod s) (queryParams s) (headers s) (requestBody s)
          v (isLoading s) (error s).

Definition setIsLoading (v : bool) (s : State) : State :=
  mkState (apiUrl s) (apiMethod s) (queryParams s) (headers s) (requestBody s)
          (response s) v (error s).

Definition setError (v : option string) (s : State) : State :=
  mkState (apiUrl s) (apiMethod s) (queryParams s) (headers s) (requestBody s)
          (response s) (isLoading s) v.

(** The state of the first render; [now] is the [Date.now()] of line 13. *)
Definition initialState (now : Z) : State :=
  mkState "https://jsonplaceholder.typicode.com/posts/1" "GET" []
          [mkKeyValue now "Content-Type" "application/json"] "" None false None.

Definition methodsWithBody : list string := ["POST"; "PUT"; "PATCH"].

(** [Array.prototype.includes] on strings. *)
Definition includes (l : list string) (x : string) : bool :=
  List.existsb (fun y => y =? x) l.

(** ** Key/value list handlers (lines 21-49) *)

(** The [field] argument of the update handlers: ['key' | 'value']. *)
Inductive Field : Type := field_key | field_value.

(** [{ ...param, [field]: value }]. *)
Definition withField (param : KeyValue) (field : Field) (v : string) : KeyValue :=
  match field with
  | field_key => mkKeyValue (id param) v (value param)
  | field_value => mkKeyValue (id param) (key param) v
  end.

Definition addQueryParam (now : Z) (s : State) : State :=
  setQueryParams (queryParams s ++ [mkKeyValue now "" ""])%list s.

Definition updateQueryParam (i : Z) (field : Field) (v : string) (s : State) : State :=
  setQueryParams
    (List.map (fun param => if (id param =? i)%Z then withField param field v else param)
              (queryParams s)) s.

Definition removeQueryParam (i : Z) (s : State) : State :=
  setQueryParams (List.filter (fun param => negb (id param =? i)%Z) (queryParams s)) s.

Definition addHeader (now : Z) (s : State) : State :=
  setHeaders (headers s ++ [mkKeyValue now "" ""])%list s.

Definition updateHeader (i : Z) (field : Field) (v : string) (s : State) : State :=
  setHeaders
    (List.map (fun header => if (id header =? i)%Z then withField header field v else header)
              (headers s)) s.

Definition removeHeader (i : Z) (s : State) : State :=
  setHeaders (List.filter (fun header => negb (id header =? i)%Z) (headers s)) s.

(** ** [handleTestApi] (lines 52-98) *)

Module RequestInit.
Record t : Type := mk { method : string; headers : Headers.t; body : option string }.
Definition setBody (v : string) (o : t) : t := mk (method o) (headers o) (Some v).
End RequestInit.

(** A settled promise; a rejection is kept by the [message] of its
    reason. *)
Inductive settled (A : Type) : Type :=
| Fulfilled (a : A)
| Rejected (message : string).
Arguments Fulfilled {A} a.
Arguments Rejected {A} message.

Module Response.
(** What the component reads of a [Response]: [json] is the outcome of
    [res.json()]. *)
Record t : Type := mk { status : Z; statusText : string; json : settled JSValue }.
End Response.

(** The transport: what [fetch(url, init)] settles to. *)
Definition Fetch : Type := string -> RequestInit.t -> settled Response.t.

(** Lines 53-55. *)
Definition handleTestApi_begin (s : State) : State :=
  setResponse None (setError None (setIsLoading true s)).

(** [param.key.trim() !== ''], also the truthiness of [p.key.trim()]. *)
Definition keyNotBlank (param : KeyValue) : bool := nonEmpty (trim (key param)).

(** Lines 57-69. *)
Definition finalUrl (s : State) : string :=
  let finalUrl := apiUrl s in
  if (0 <? List.length (queryParams s))%nat then
    let filteredParams := List.filter keyNotBlank (queryParams s) in
    if (0 <? List.length filteredParams)%nat then
      let queryString :=
        URLSearchParams.toString
          (URLSearchParams.ofRecord
             (List.fold_left
                (fun acc param => JSObject.set (key param) (value param) acc)
                filteredParams [])) in
      finalUrl ++ "?" ++ queryString
    else finalUrl
  else finalUrl.

(** Lines 72-77. A throw of [append] ends the loop. *)
Definition requestHeaders (s : State) : completion Headers.t :=
  List.fold_left
    (fun acc header =>
       requestHeaders <- acc ;;
       if keyNotBlank header
       then Headers.append (key header) (value header) requestHeaders
       else Return requestHeaders)
    (headers s) (Return []).

(** Lines 79-86. *)
Definition requestOptions (s : State) (requestHeaders : Headers.t) : RequestInit.t :=
  let requestOptions := RequestInit.mk (apiMethod s) requestHeaders None in
  if includes methodsWithBody (apiMethod s) && nonEmpty (trim (requestBody s))
  then RequestInit.setBody (requestBody s) requestOptions
  else requestOptions.

(** Lines 57-86: the arguments of the [fetch] call, when nothing throws. *)
Definition handleTestApi_request (s : State) : completion (string * RequestInit.t) :=
  let finalUrl := finalUrl s in
  requestHeaders <- requestHeaders s ;;
  Return (finalUrl, requestOptions s requestHeaders).

(** [JSON.stringify] of an object, which is a string. *)
Definition stringifyObject (props : list (string * JSValue)) (space : nat) : string :=
  match JSON.stringify (VObject props) space with
  | Some text => text
  | None => ""
  end.

(** The [try] block, lines 89-91, given what [fetch] settled to: the new
    state, or the message of the error thrown. *)
Definition handleTestApi_try (outcome : settled Response.t) (s : State)
  : State + string :=
  match outcome with
  | Rejected message => inr message
  | Fulfilled res =>
      match Response.json res with
      | Rejected message => inr message
      | Fulfilled data =>
          inl (setResponse
                 (Some (stringifyObject
                          [("status", JSON.ofZ (Response.status res));
                           ("statusText", VString (Response.statusText res));
                           ("data", data)] 2)) s)
      end
  end.

(** Lines 88-97: [try], [catch] and [finally], run when [fetch] has
    settled. *)
Definition handleTestApi_settle (outcome : settled Response.t) (s : State) : State :=
  let s :=
    match handleTestApi_try outcome s with
    | inl s' => s'
    | inr message => setResponse None (setError (Some ("Error: " ++ message)) s)
    end in
  setIsLoading false s.

(** One whole run, with nothing else happening while [fetch] is awaited.
    When the assembly throws, the promise of the handler is rejected and
    neither [catch] nor [finally] runs. *)
Definition handleTestApi (fetch : Fetch) (s : State) : State :=
  match handleTestApi_request s with
  | Throw _ => handleTestApi_begin s
  | Return (url, init) => handleTestApi_settle (fetch url init) (handleTestApi_begin s)
  end.

(** ** [handleExport] (lines 101-119) *)

(** A [KeyValue] object as a value: its properties in order of creation. *)
Definition KeyValue_value (e : KeyValue) : JSValue :=
  VObject [("id", JSON.ofZ (id e)); ("key", VString (key e));
           ("value", VString (value e))].

Definition apiConfig (s : State) : list (string * JSValue) :=
  [("apiUrl", VString (apiUrl s));
   ("apiMethod", VString (apiMethod s));
   ("queryParams", VArray (List.map KeyValue_value (List.filter keyNotBlank (queryParams s))));
   ("headers", VArray (List.map KeyValue_value (List.filter keyNotBlank (headers s))));
   ("requestBody", if includes methodsWithBody (apiMethod s)
                   then VString (requestBody s) else VUndefined)].

Definition dataStr (s : State) : string := stringifyObject (apiConfig s) 2.

(** [encodeURIComponent] on UTF-8 text. *)
Definition encodeURIComponent (s : string) : string :=
  concatMap (fun c =>
               let n := code c in
               if ((48 <=? n) && (n <=? 57) || (65 <=? n) && (n <=? 90)
                   || (97 <=? n) && (n <=? 122)
                   || (n =? 45) || (n =? 95) || (n =? 46) || (n =? 33)
                   || (n =? 126) || (n =? 42) || (39 <=? n) && (n <=? 41))%N
               then String c "" else "%" ++ hexByte true c) s.

Definition dataUri (s : State) : string :=
  "data:application/json;charset=utf-8," ++ encodeURIComponent (dataStr s).

(** ** [loadExample] (lines 122-137) *)

(** [now1] and [now2] are the [Date.now()] of line 127 and of line 128. *)
Definition loadExample (now1 now2 : Z) (s : State) : State :=
  setError None
   (setResponse None
    (setRequestBody
       (stringifyObject [("title", VString "foo"); ("body", VString "bar");
                         ("userId", JSON.ofZ 1)] 2)
     (setHeaders [mkKeyValue now1 "Content-Type" "application/json";
                  mkKeyValue (now2 + 1) "Authorization" "Bearer YOUR_TOKEN_HERE"]
      (setQueryParams []
       (setApiMethod "POST"
        (setApiUrl "https://jsonplaceholder.typicode.com/posts" s)))))).

(** ** The session *)

(** What the user can do besides testing the API. *)
Inductive Action : Type :=
| SetApiUrl (v : string)
| SetApiMethod (v : string)
| SetRequestBody (v : string)
| AddQueryParam (now : Z)
| UpdateQueryParam (i : Z) (field : Field) (v : string)
| RemoveQueryParam (i : Z)
| AddHeader (now : Z)
| UpdateHeader (i : Z) (field : Field) (v : string)
| RemoveHeader (i : Z)
| Export
| LoadExample (now1 now2 : Z).

Definition perform (a : Action) (s : State) : State :=
  match a with
  | SetApiUrl v => setApiUrl v s
  | SetApiMethod v => setApiMethod v s
  | SetRequestBody v => setRequestBody v s
  | AddQueryParam now => addQueryParam now s
  | UpdateQueryParam i field v => updateQueryParam i field v s
  | RemoveQueryParam i => removeQueryParam i s
  | AddHeader now => addHeader now s
  | UpdateHeader i field v => updateHeader i field v s
  | RemoveHeader i => removeHeader i s
  | Export => s
  | LoadExample now1 now2 => loadExample now1 now2 s
  end.

(** The [option]s of the method [select] (lines 159-165). *)
Definition methodOptions : list string :=
  ["GET"; "POST"; "PUT"; "PATCH"; "DELETE"; "OPTIONS"; "HEAD"].

(** What the rendered page offers: the method comes from the [select], a
    row is edited or removed through its own inputs and button, and the
    body is edited only while its [textarea] is rendered (line 265). *)
Definition offered (a : Action) (s : State) : Prop :=
  match a with
  | SetApiMethod v => In v methodOptions
  | SetRequestBody _ => includes methodsWithBody (apiMethod s) = true
  | UpdateQueryParam i _ _ | RemoveQueryParam i => In i (List.map id (queryParams s))
  | UpdateHeader i _ _ | RemoveHeader i => In i (List.map id (headers s))
  | _ => True
  end.

(** A setter call of lines 91-96. *)
Inductive Update : Type :=
| SetResponse (v : option string)
| SetError (v : option string)
| SetIsLoading (v : bool).

Definition applyUpdate (u : Update) (s : State) : State :=
  match u with
  | SetResponse v => setResponse v s
  | SetError v => setError v s
  | SetIsLoading v => setIsLoading v s
  end.

(** The setter calls that [try], [catch] and [finally] make, in their
    order, given what [fetch] settled to (lines 91, 93-94 and 96). *)
Definition settleUpdates (outcome : settled Response.t) : list Update :=
  match outcome with
  | Rejected message =>
      [SetError (Some ("Error: " ++ message)); SetResponse None; SetIsLoading false]
  | Fulfilled res =>
      match Response.json res with
      | Rejected message =>
          [SetError (Some ("Error: " ++ message)); SetResponse None; SetIsLoading false]
      | Fulfilled data =>
          [SetResponse
             (Some (stringifyObject
                      [("status", JSON.ofZ (Response.status res));
                       ("statusText", VString (Response.statusText res));
                       ("data", data)] 2));
           SetIsLoading false]
      end
  end.

(** The state on screen, with the number of [fetch] calls that have not
    settled yet and the setter calls that the run being ended has still to
    make. *)
Record Session : Type := session { ui : State; pending : nat; settling : list Update }.

(** A session in which no run is being ended. *)
Notation mkSession s n := (session s n nil).

(** The commits of a session. What a handler does when called from an
    event is one commit: React applies together the updates made in its
    event handlers. The setter calls of lines 91-96 are made after an
    [await], outside an event handler: whether they are applied together
    depends on the root the component is mounted with, which is not the
    component's to choose, so each of them is a commit of its own here, and
    what holds of every state of a session holds with and without batching.
    These calls are one synchronous stretch of code: nothing else happens
    between them. The button [Test API] is disabled while [isLoading]
    (line 283). *)
Inductive step : Session -> Session -> Prop :=
| step_action (a : Action) (s : State) (n : nat) :
    offered a s ->
    step (mkSession s n) (mkSession (perform a s) n)
| step_test_throw (s : State) (n : nat) (thrown : string) :
    isLoading s = false ->
    handleTestApi_request s = Throw thrown ->
    step (mkSession s n) (mkSession (handleTestApi_begin s) n)
| step_test_fetch (s : State) (n : nat) (request : string * RequestInit.t) :
    isLoading s = false ->
    handleTestApi_request s = Return request ->
    step (mkSession s n) (mkSession (handleTestApi_begin s) (S n))
| step_settle (s : State) (n : nat) (outcome : settled Response.t) :
    step (mkSession s (S n)) (session s n (settleUpdates outcome))
| step_update (s : State) (n : nat) (u : Update) (rest : list Update) :
    step (session s n (u :: rest)) (session (applyUpdate u s) n rest).

Inductive reachable : Session -> Prop :=
| reachable_initial (now : Z) : reachable (mkSession (initialState now) 0)
| reachable_step (x y : Session) : reachable x -> step x y -> reachable y.


(** ** Notions used in the statements *)

(** [o[name]] on the properties of an object. *)
Definition getProperty (name : string) (props : list (string * JSValue))
  : option JSValue :=
  option_map snd (List.find (fun p => fst p =? name) props).

(** An entry without its id: the element [{key, value}]. *)
Definition KeyValue_stripped (e : KeyValue) : JSValue :=
  VObject [("key", VString (key e)); ("value", VString (value e))].

(** The message of the error caught, when [fetch] or [res.json()]
    rejects. *)
Definition failureMessage (outcome : settled Response.t) : option string :=
  match outcome with
  | Rejected message => Some message
  | Fulfilled res =>
      match Response.json res with
      | Rejected message => Some message
      | Fulfilled _ => None
      end
  end.

(** The state of the export scenario: a header with an empty key and a
    valid one. *)
Definition exportScenario : State :=
  mkState "https://api.example.com/items" "GET" []
          [mkKeyValue 1700000000000 "" "ignored";
           mkKeyValue 1700000000001 "Accept" "*/*"] "" None false None.

(** The ids of each list are pairwise distinct. *)
Definition idsDistinct (s : State) : Prop :=
  NoDup (List.map id (queryParams s)) /\ NoDup (List.map id (headers s)).

(** The reading of the clock at an addition is not an id of the list
    already, and the two readings of [loadExample] do not give one id. *)
Definition freshClock (a : Action) (s : State) : Prop :=
  match a with
  | AddQueryParam now => ~ In now (List.map id (queryParams s))
  | AddHeader now => ~ In now (List.map id (headers s))
  | LoadExample now1 now2 => now1 <> (now2 + 1)%Z
  | _ => True
  end.

(** The value of the last entry of a list that has the key [k]. *)
Definition lastValue (k : string) (l : list KeyValue) : option string :=
  option_map value (List.find (fun e => key e =? k) (List.rev l)).

(** What [Headers.append] accepts of an entry. *)
Definition headerAccepted (e : KeyValue) : bool :=
  Headers.isByteString (key e) && Headers.isByteString (value e)
  && Headers.isHeaderName (key e)
  && Headers.isHeaderValue (Headers.normalize (value e)).

(** The value an entry contributes to the header list. *)
Definition headerValue (e : KeyValue) : string := Headers.normalize (value e).

(** Two headers of one name. *)
Definition duplicateHeaders : State :=
  mkState "https://api.example.com/items" "GET" []
          [mkKeyValue 1700000000000 "X-Token" "one";
           mkKeyValue 1700000000001 "X-Token" "two"] "" None false None.

(** The name and value an entry gives to the query string. *)
Definition pairOf (e : KeyValue) : string * string := (key e, value e).

(** The record of lines 62-65, from the filtered parameters. *)
Definition paramsRecord (filteredParams : list KeyValue) : JSObject.t :=
  List.fold_left (fun acc param => JSObject.set (key param) (value param) acc)
                 filteredParams [].

(** A key that a record keeps where it was written: not an array index and
    not [__proto__]. *)
Definition plainKey (k : string) : bool :=
  negb (JSObject.isArrayIndex k) && negb (k =? "__proto__").

(** The state of the query-filtering scenario. *)
Definition filterScenario : State :=
  mkState "https://api.example.com/items" "GET"
          [mkKeyValue 1700000000000 "" "x"; mkKeyValue 1700000000001 "a" "b"]
          [] "" None false None.

(** Two parameters of one key. *)
Definition duplicateParams : State :=
  mkState "https://api.example.com/items" "GET"
          [mkKeyValue 1700000000000 "a" "1"; mkKeyValue 1700000000001 "a" "2"]
          [] "" None false None.

(** A parameter whose key has blanks around it. *)
Definition paddedParam : State :=
  mkState "https://api.example.com/items" "GET"
          [mkKeyValue 1700000000000 " a " "b"] [] "" None false None.

(** ** Notions used in the further properties *)

(** [param[field]]. *)
Definition getField (field : Field) (e : KeyValue) : string :=
  match field with field_key => key e | field_value => value e end.

(** The field an update of [field] leaves alone. *)
Definition otherField (field : Field) : Field :=
  match field with field_key => field_value | field_value => field_key end.

(** What an update by the id [i] of [field] to [v] does to one entry. *)
Definition updatedTo (i : Z) (field : Field) (v : string) (e e' : KeyValue) : Prop :=
  id e' = id e
  /\ getField (otherField field) e' = getField (otherField field) e
  /\ (id e = i -> getField field e' = v)
  /\ (id e <> i -> e' = e).

(** A header the transport can carry: a name and a value that the Fetch
    standard accepts. *)
Definition validHeader (h : string * string) : bool :=
  Headers.isHeaderName (fst h) && Headers.isHeaderValue (snd h).

(** Every character of [s] satisfies [P]. *)
Definition allChars (P : ascii -> bool) (s : string) : bool :=
  List.forallb P (list_ascii_of_string s).

(** The characters an encoded name or value is made of: the unreserved
    ones, [+] and [%]. *)
Definition encodedChar (c : ascii) : bool :=
  URLSearchParams.unreserved c || (code c =? 43)%N || (code c =? 37)%N.

(** The characters of a query string: those, [=] and [&]. *)
Definition queryChar (c : ascii) : bool :=
  encodedChar c || (code c =? 61)%N || (code c =? 38)%N.

(** The characters [encodeURIComponent] produces: ASCII letters and digits,
    the marks [-_.!~*'()] and [%]. *)
Definition uriChar (c : ascii) : bool :=
  let n := code c in
  ((48 <=? n) && (n <=? 57) || (65 <=? n) && (n <=? 90) || (97 <=? n) && (n <=? 122)
   || (n =? 45) || (n =? 95) || (n =? 46) || (n =? 33) || (n =? 126) || (n =? 42)
   || (39 <=? n) && (n <=? 41) || (n =? 37))%N.

(** One pair of a query string, and what follows the first pair. *)
Definition encodePair (p : string * string) : string :=
  URLSearchParams.percentEncode (fst p) ++ "=" ++ URLSearchParams.percentEncode (snd p).

Definition queryTail (l : list (string * string)) : string :=
  String.concat "" (List.map (fun p => "&" ++ encodePair p) l).

Definition hexValue (c : ascii) : option N :=
  let n := code c in
  if ((48 <=? n) && (n <=? 57))%N then Some (n - 48)%N
  else if ((65 <=? n) && (n <=? 70))%N then Some (n - 55)%N
  else if ((97 <=? n) && (n <=? 102))%N then Some (n - 87)%N
  else None.

(** The reading of an encoded name or value (WHATWG URL, the
    application/x-www-form-urlencoded parser): [+] is a blank, [%XY] a
    byte. *)
Fixpoint percentDecode (s : string) : string :=
  match s with
  | EmptyString => ""
  | String c r =>
      if (code c =? 43)%N then String " " (percentDecode r)
      else if (code c =? 37)%N then
        match r with
        | String h1 (String h2 r') =>
            match hexValue h1, hexValue h2 with
            | Some a, Some b => String (ascii_of_N (16 * a + b)) (percentDecode r')
            | _, _ => String c (percentDecode r)
            end
        | _ => String c (percentDecode r)
        end
      else String c (percentDecode r)
  end.

(** The retained parameters have distinct keys, none an array index or
    [__proto__]. *)
Definition plainParams (s : State) : Prop :=
  NoDup (List.map key (List.filter keyNotBlank (queryParams s)))
  /\ List.forallb (fun e => plainKey (key e)) (List.filter keyNotBlank (queryParams s)) = true.

(** ** The render (lines 140-341) *)

(** [v && ...] on a string or null: a non-empty string. *)
Definition truthy (v : option string) : bool :=
  match v with Some text => nonEmpty text | None => false end.

(** What of the page depends on the state besides the inputs: whether the
    body editor is there (line 265), the button [Test API] (lines 283 and
    296) and the four parts of the response panel (lines 310, 319, 325 and
    333). *)
Record Screen : Type := mkScreen {
  bodyEditor : bool;
  testDisabled : bool;
  testLabel : string;
  loadingPanel : bool;
  errorPanel : option string;
  responsePanel : option string;
  placeholder : bool
}.

Definition render (s : State) : Screen :=
  mkScreen (includes methodsWithBody (apiMethod s))
           (isLoading s)
           (if isLoading s then "Testing..." else "Test API")
           (isLoading s)
           (if truthy (error s) then error s else None)
           (if truthy (response s) then response s else None)
           (negb (isLoading s) && negb (truthy (error s)) && negb (truthy (response s))).

Definition shown (v : option string) : nat :=
  match v with Some _ => 1 | None => 0 end.

(** How many of the four parts of the response panel are on the page. *)
Definition panelsShown (v : Screen) : nat :=
  (Nat.b2n (loadingPanel v) + shown (errorPanel v) + shown (responsePanel v)
   + Nat.b2n (placeholder v))%nat.

(** Several commits in a row. *)
Inductive steps : Session -> Session -> Prop :=
| steps_none (x : Session) : steps x x
| steps_more (x y z : Session) : steps x y -> step y z -> steps x z.

(** The texts on display are not empty. *)
Definition textsNotEmpty (s : State) : Prop :=
  (forall text, error s = Some text -> text <> "")
  /\ (forall text, response s = Some text -> text <> "").

(** What the run being ended has still to do, and what the display holds
    meanwhile. *)
Inductive closing (s : State) : list Update -> Prop :=
| closing_success (text : string) :
    text <> "" -> response s = None -> error s = None ->
    closing s [SetResponse (Some text); SetIsLoading false]
| closing_failure (text : string) :
    text <> "" -> response s = None -> error s = None ->
    closing s [SetError (Some text); SetResponse None; SetIsLoading false]
| closing_clear :
    response s = None -> closing s [SetResponse None; SetIsLoading false]
| closing_flag :
    closing s [SetIsLoading false].

(** The invariant of the session. A response and an error are never there
    together and what is shown is not empty. While no run is being ended
    the display is exclusive, at most one [fetch] is pending, and while one
    is pending [isLoading] is set; while a run is being ended no [fetch] is
    pending and [isLoading] is still set. *)
Definition session_invariant (x : Session) : Prop :=
  (response (ui x) = None \/ error (ui x) = None)
  /\ textsNotEmpty (ui x)
  /\ match settling x with
     | [] => (isLoading (ui x) = true -> response (ui x) = None /\ error (ui x) = None)
             /\ (pending x = 0%nat \/ (pending x = 1%nat /\ isLoading (ui x) = true))
     | rest => pending x = 0%nat /\ isLoading (ui x) = true /\ closing (ui x) rest
     end.

(** The builder part of two states is the same. *)
Definition sameBuilder (s s' : State) : Prop :=
  apiUrl s' = apiUrl s /\ apiMethod s' = apiMethod s
  /\ queryParams s' = queryParams s /\ headers s' = headers s
  /\ requestBody s' = requestBody s.

(** * Properties *)

(** ** Checks of the platform model *)

Example trim_spaces : trim "  a b  " = "a b".
Proof. reflexivity. Qed.

Example trim_blank : trim (" " ++ chr 9 ++ LF ++ chr 194 ++ chr 160 ++ chr 239 ++ chr 187 ++ chr 191) = "".
Proof. reflexivity. Qed.

Example trim_end :
  trim ("a" ++ chr 194 ++ chr 160 ++ chr 227 ++ chr 128 ++ chr 128 ++ chr 13) = "a".
Proof. reflexivity. Qed.

Example arrayIndex_ex :
  JSObject.arrayIndex "10" = Some 10%Z /\ JSObject.arrayIndex "01" = None
  /\ JSObject.arrayIndex "4294967294" = Some 4294967294%Z
  /\ JSObject.arrayIndex "4294967295" = None /\ JSObject.arrayIndex "-0" = None.
Proof. repeat split. Qed.

Example percentEncode_ex :
  URLSearchParams.percentEncode "a b*-._~/?=&" = "a+b*-._%7E%2F%3F%3D%26".
Proof. reflexivity. Qed.

Example headers_append_ex :
  Headers.append "x-token" "  two " [("X-Token", "one")]
  = Return [("X-Token", "one"); ("X-Token", "two")].
Proof. reflexivity. Qed.

Example ofInteger_ex : ofInteger 404 = "404" /\ ofInteger 0 = "0" /\ ofInteger (-12) = "-12".
Proof. repeat split. Qed.

Example hex_ex : hexByte true "/" = "2F" /\ hexByte false (ascii_of_N 31) = "1f".
Proof. repeat split. Qed.

Example stringify_ex :
  JSON.stringify (VObject [("a", JSON.ofZ 1); ("u", VUndefined);
                           ("l", VArray [VNull; VUndefined; VString "x"]);
                           ("e", VObject [])]) 2
  = Some ("{" ++ LF ++ "  " ++ dquote ++ "a" ++ dquote ++ ": 1," ++ LF
          ++ "  " ++ dquote ++ "l" ++ dquote ++ ": [" ++ LF
          ++ "    null," ++ LF ++ "    null," ++ LF
          ++ "    " ++ dquote ++ "x" ++ dquote ++ LF ++ "  ]," ++ LF
          ++ "  " ++ dquote ++ "e" ++ dquote ++ ": {}" ++ LF ++ "}").
Proof. reflexivity. Qed.

(** ** Key/value lists *)

Section KeyValueLists.

Lemma filter_absent_id (l : list KeyValue) (i : Z) :
  ~ In i (List.map id l) ->
  List.filter (fun param => negb (id param =? i)%Z) l = l.
Proof.
  induction l as [|e l IH]; intros Hi; simpl in *; [reflexivity|].
  destruct (Z.eqb_spec (id e) i) as [E|E]; simpl.
  - exfalso. apply Hi. now left.
  - rewrite IH; [reflexivity|]. intros H. apply Hi. now right.
Qed.

Lemma map_absent_id (l : list KeyValue) (i : Z) (field : Field) (v : string) :
  ~ In i (List.map id l) ->
  List.map (fun param => if (id param =? i)%Z then withField param field v else param) l = l.
Proof.
  induction l as [|e l IH]; intros Hi; simpl in *; [reflexivity|].
  destruct (Z.eqb_spec (id e) i) as [E|E].
  - exfalso. apply Hi. now left.
  - rewrite IH; [reflexivity|]. intros H. apply Hi. now right.
Qed.

Lemma filter_added_id (l : list KeyValue) (i : Z) :
  ~ In i (List.map id l) ->
  List.filter (fun param => negb (id param =? i)%Z) (l ++ [mkKeyValue i "" ""])%list = l.
Proof.
  intros Hi. rewrite List.filter_app, filter_absent_id by assumption.
  simpl. rewrite Z.eqb_refl. simpl. apply List.app_nil_r.
Qed.

Lemma withField_id (e : KeyValue) (field : Field) (v : string) :
  id (withField e field v) = id e.
Proof. now destruct field. Qed.

(** Editing keeps the ids and their order. *)
Lemma update_ids (l : list KeyValue) (i : Z) (field : Field) (v : string) :
  List.map id
    (List.map (fun param => if (id param =? i)%Z then withField param field v else param) l)
  = List.map id l.
Proof.
  induction l as [|e l IH]; simpl; [reflexivity|].
  rewrite IH. destruct (id e =? i)%Z; [rewrite withField_id|]; reflexivity.
Qed.

(** Removing keeps distinct ids distinct. *)
Lemma remove_ids_NoDup (l : list KeyValue) (i : Z) :
  NoDup (List.map id l) ->
  NoDup (List.map id (List.filter (fun param => negb (id param =? i)%Z) l)).
Proof.
  induction l as [|e l IH]; simpl; intros H; [constructor|].
  inversion H as [|? ? Hn Hd]; subst.
  destruct (negb (id e =? i)%Z); simpl; [|now apply IH].
  constructor; [|now apply IH].
  intros Hin. apply Hn. apply List.in_map_iff in Hin as (x & Hx & Hf).
  apply List.filter_In in Hf as [Hf _]. apply List.in_map_iff. now exists x.
Qed.

(** Adding keeps distinct ids distinct when the clock reading is new to
    the list. *)
Lemma add_ids_NoDup (l : list KeyValue) (now : Z) :
  NoDup (List.map id l) -> ~ In now (List.map id l) ->
  NoDup (List.map id (l ++ [mkKeyValue now "" ""])%list).
Proof.
  intros Hd Hn. rewrite List.map_app. simpl.
  apply List.NoDup_app; [assumption|repeat constructor; intros []|].
  intros x Hx [<-|[]]. contradiction.
Qed.

(** Under fresh readings of the clock every action keeps the ids of both
    lists distinct. *)
Lemma perform_ids_distinct (a : Action) (s : State) :
  idsDistinct s -> freshClock a s -> idsDistinct (perform a s).
Proof.
  intros [Hq Hh] Hf. unfold idsDistinct.
  destruct a; simpl in *; try (split; assumption).
  - split; [now apply add_ids_NoDup|assumption].
  - split; [now rewrite update_ids|assumption].
  - split; [now apply remove_ids_NoDup|assumption].
  - split; [assumption|now apply add_ids_NoDup].
  - split; [assumption|now rewrite update_ids].
  - split; [assumption|now apply remove_ids_NoDup].
  - split; [constructor|].
    repeat constructor; simpl; [intros [H|[]]; lia|intros []].
Qed.

End KeyValueLists.

(** X20. When the reading of the clock is not an id of the list already,
    adding an entry at that reading and then removing by its id gives the
    state before the addition back, all entries and their order included;
    and updating or removing by an id that is not in the list changes
    nothing. This holds of the query parameters and of the headers. *)
Theorem add_remove_inverse_absent_noop (s : State) (i : Z) :
  (~ In i (List.map id (queryParams s)) ->
   removeQueryParam i (addQueryParam i s) = s
   /\ (forall field v, updateQueryParam i field v s = s)
   /\ removeQueryParam i s = s)
  /\ (~ In i (List.map id (headers s)) ->
      removeHeader i (addHeader i s) = s
      /\ (forall field v, updateHeader i field v s = s)
      /\ removeHeader i s = s).
Proof.
  destruct s as [u m qs hs b r l e]. split; intros Hi; simpl in Hi.
  - unfold removeQueryParam, addQueryParam, updateQueryParam, setQueryParams; simpl.
    rewrite filter_added_id, filter_absent_id by assumption.
    repeat split. intros field v. now rewrite map_absent_id.
  - unfold removeHeader, addHeader, updateHeader, setHeaders; simpl.
    rewrite filter_added_id, filter_absent_id by assumption.
    repeat split. intros field v. now rewrite map_absent_id.
Qed.

Lemma add_remove_inverse_absent_noop_witness :
  let s := addQueryParam 1700000000005 (initialState 1700000000000) in
  ~ In 1700000000009%Z (List.map id (queryParams s))
  /\ removeQueryParam 1700000000009 (addQueryParam 1700000000009 s) = s
  /\ ~ In 1700000000009%Z (List.map id (headers s))
  /\ removeHeader 1700000000009 (addHeader 1700000000009 s) = s.
Proof.
  intros s.
  assert (Hq : ~ In 1700000000009%Z (List.map id (queryParams s))).
  { simpl. intros [H|[]]. discriminate H. }
  assert (Hh : ~ In 1700000000009%Z (List.map id (headers s))).
  { simpl. intros [H|[]]. discriminate H. }
  split; [exact Hq|]. split.
  - exact (proj1 (proj1 (add_remove_inverse_absent_noop s 1700000000009) Hq)).
  - split; [exact Hh|].
    exact (proj1 (proj2 (add_remove_inverse_absent_noop s 1700000000009) Hh)).
Defined.

(** C9. The id of the entry added is the reading of the clock, fresh or
    not: in a session the page can go through, with a row added at a
    reading and a second row added at the same reading, removing by the id
    of the row just added removes both, and the list of before the second
    addition does not come back. *)
Theorem add_remove_collision :
  let s := addQueryParam 1700000000005 (initialState 1700000000000) in
  reachable (mkSession s 0)
  /\ reachable (mkSession (removeQueryParam 1700000000005
                                            (addQueryParam 1700000000005 s)) 0)
  /\ queryParams s = [mkKeyValue 1700000000005 "" ""]
  /\ queryParams (addQueryParam 1700000000005 s)
     = [mkKeyValue 1700000000005 "" ""; mkKeyValue 1700000000005 "" ""]
  /\ queryParams (removeQueryParam 1700000000005 (addQueryParam 1700000000005 s)) = []
  /\ removeQueryParam 1700000000005 (addQueryParam 1700000000005 s) <> s.
Proof.
  intros s.
  assert (H : reachable (mkSession s 0)).
  { eapply reachable_step; [apply (reachable_initial 1700000000000)|].
    apply (step_action (AddQueryParam 1700000000005)). exact I. }
  split; [exact H|]. split; [|repeat split; intros E; discriminate E].
  eapply reachable_step.
  - eapply reachable_step; [exact H|].
    apply (step_action (AddQueryParam 1700000000005)). exact I.
  - apply (step_action (RemoveQueryParam 1700000000005)). simpl. now left.
Qed.

(** C8. The ids are readings of the clock: two entries added at the same
    reading of [Date.now()] carry the same id, in a session the page can
    go through. *)
Theorem date_now_ids_collide :
  let x := mkSession (addQueryParam 1700000000000
                        (addQueryParam 1700000000000 (initialState 1690000000000))) 0 in
  reachable x
  /\ List.map id (queryParams (ui x)) = [1700000000000; 1700000000000]%Z
  /\ ~ NoDup (List.map id (queryParams (ui x))).
Proof.
  intros x. split; [|split].
  - unfold x. eapply reachable_step.
    + eapply reachable_step; [apply (reachable_initial 1690000000000)|].
      apply (step_action (AddQueryParam 1700000000000)). exact I.
    + apply (step_action (AddQueryParam 1700000000000)). exact I.
  - reflexivity.
  - simpl. intros H. inversion H as [|? ? Hn _]; subst. apply Hn. now left.
Qed.

(** ** The request of [handleTestApi] *)

Lemma nonEmpty_true (x : string) : nonEmpty x = true <-> x <> "".
Proof. destruct x; simpl; split; intros H; congruence. Qed.

Lemma includes_In (l : list string) (x : string) : includes l x = true <-> In x l.
Proof.
  unfold includes. rewrite List.existsb_exists. split.
  - intros (y & Hy & E). apply String.eqb_eq in E. now subst.
  - intros H. exists x. split; [assumption|apply String.eqb_refl].
Qed.

Lemma request_options (s : State) (url : string) (init : RequestInit.t) :
  handleTestApi_request s = Return (url, init) ->
  exists hl, requestHeaders s = Return hl /\ url = finalUrl s /\ init = requestOptions s hl.
Proof.
  unfold handleTestApi_request, bind. destruct (requestHeaders s) as [hl|m]; intros H.
  - injection H as <- <-. now exists hl.
  - discriminate H.
Qed.

(** C4. The request given to [fetch] has a body exactly when the method is
    one of POST, PUT, PATCH and the trimmed body text is not empty, and the
    body is then the body text itself. *)
Theorem request_body_rule (s : State) (url : string) (init : RequestInit.t) :
  handleTestApi_request s = Return (url, init) ->
  (RequestInit.body init <> None
   <-> In (apiMethod s) ["POST"; "PUT"; "PATCH"] /\ trim (requestBody s) <> "")
  /\ (forall b, RequestInit.body init = Some b -> b = requestBody s).
Proof.
  intros H. apply request_options in H as (hl & _ & _ & ->).
  unfold requestOptions.
  change ["POST"; "PUT"; "PATCH"] with methodsWithBody.
  rewrite <- includes_In, <- nonEmpty_true.
  destruct (includes methodsWithBody (apiMethod s));
    destruct (nonEmpty (trim (requestBody s))); cbn;
    (split; [split|]); intros; intuition congruence.
Qed.

Lemma request_body_rule_witness :
  let body := "{" ++ dquote ++ "a" ++ dquote ++ ":1}" in
  let s := setRequestBody body (setApiMethod "POST" (initialState 1700000000000)) in
  let init := RequestInit.mk "POST" [("Content-Type", "application/json")] (Some body) in
  handleTestApi_request s = Return ("https://jsonplaceholder.typicode.com/posts/1", init)
  /\ forall b, RequestInit.body init = Some b -> b = body.
Proof.
  intros body s init.
  assert (H : handleTestApi_request s
              = Return ("https://jsonplaceholder.typicode.com/posts/1", init))
    by reflexivity.
  split; [exact H|].
  exact (proj2 (request_body_rule s _ _ H)).
Defined.

(** The two cases the specification names: GET with a body text sends no
    body, POST with the text [{"a":1}] sends that text. *)
Example request_body_GET :
  handleTestApi_request (setRequestBody "{}" (initialState 1700000000000))
  = Return ("https://jsonplaceholder.typicode.com/posts/1",
            RequestInit.mk "GET" [("Content-Type", "application/json")] None).
Proof. reflexivity. Qed.

Example request_body_POST :
  let body := "{" ++ dquote ++ "a" ++ dquote ++ ":1}" in
  handleTestApi_request
    (setRequestBody body (setApiMethod "POST" (initialState 1700000000000)))
  = Return ("https://jsonplaceholder.typicode.com/posts/1",
            RequestInit.mk "POST" [("Content-Type", "application/json")] (Some body)).
Proof. reflexivity. Qed.

(** ** The outcome of [handleTestApi] *)

(** [JSON.stringify] of an object is never [undefined]. *)
Lemma stringify_object_defined (props : list (string * JSValue)) (space : nat) :
  JSON.stringify (VObject props) space = Some (stringifyObject props space).
Proof.
  unfold stringifyObject, JSON.stringify. simpl.
  now destruct (List.flat_map _ props).
Qed.

(** C2. When [fetch] answers with a response, whatever its status, and the
    body parses as JSON, the run ends with the response shown: the text of
    [{status, statusText, data}], no error, not loading. *)
Theorem response_received_is_success
        (fetch : Fetch) (s : State) (url : string) (init : RequestInit.t)
        (res : Response.t) (data : JSValue) :
  handleTestApi_request s = Return (url, init) ->
  fetch url init = Fulfilled res ->
  Response.json res = Fulfilled data ->
  let s' := handleTestApi fetch s in
  response s' = Some (stringifyObject [("status", JSON.ofZ (Response.status res));
                                       ("statusText", VString (Response.statusText res));
                                       ("data", data)] 2)
  /\ error s' = None
  /\ isLoading s' = false.
Proof.
  intros Hr Hf Hj s'. unfold s', handleTestApi. rewrite Hr, Hf.
  unfold handleTestApi_settle, handleTestApi_try. rewrite Hj.
  repeat split.
Qed.

(** The 404 of the specification: a response [404 Not Found] whose body is
    [{"error":"not found"}] is shown as a success. *)
Lemma response_received_is_success_witness :
  let res := Response.mk 404 "Not Found"
                         (Fulfilled (VObject [("error", VString "not found")])) in
  let s' := handleTestApi (fun _ _ => Fulfilled res) (initialState 1700000000000) in
  response s'
  = Some ("{" ++ LF
          ++ "  " ++ dquote ++ "status" ++ dquote ++ ": 404," ++ LF
          ++ "  " ++ dquote ++ "statusText" ++ dquote ++ ": "
                  ++ dquote ++ "Not Found" ++ dquote ++ "," ++ LF
          ++ "  " ++ dquote ++ "data" ++ dquote ++ ": {" ++ LF
          ++ "    " ++ dquote ++ "error" ++ dquote ++ ": "
                    ++ dquote ++ "not found" ++ dquote ++ LF
          ++ "  }" ++ LF ++ "}")
  /\ error s' = None
  /\ isLoading s' = false.
Proof.
  intros res s'.
  exact (response_received_is_success
           (fun _ _ => Fulfilled res) (initialState 1700000000000)
           "https://jsonplaceholder.typicode.com/posts/1"
           (RequestInit.mk "GET" [("Content-Type", "application/json")] None)
           res (VObject [("error", VString "not found")])
           eq_refl eq_refl eq_refl).
Defined.

(** C3. When [fetch] rejects, or the body does not parse, the run ends with
    an error message, which is not empty, and with no response shown; and
    the start of a run clears what the previous run left, whatever it
    was. *)
Theorem failure_shown_and_start_clears
        (fetch : Fetch) (s : State) (url : string) (init : RequestInit.t)
        (message : string) :
  handleTestApi_request s = Return (url, init) ->
  failureMessage (fetch url init) = Some message ->
  let s' := handleTestApi fetch s in
  (exists text, error s' = Some text /\ text = "Error: " ++ message /\ text <> "")
  /\ response s' = None
  /\ isLoading s' = false
  /\ (forall previous : State,
         let started := handleTestApi_begin previous in
         isLoading started = true /\ response started = None /\ error started = None).
Proof.
  intros Hr Hf s'. unfold s', handleTestApi. rewrite Hr.
  unfold handleTestApi_settle, handleTestApi_try.
  unfold failureMessage in Hf.
  destruct (fetch url init) as [res|m].
  - destruct (Response.json res) as [data|m]; [discriminate Hf|].
    injection Hf as ->. simpl. repeat split.
    exists ("Error: " ++ message). repeat split. discriminate.
  - injection Hf as ->. simpl. repeat split.
    exists ("Error: " ++ message). repeat split. discriminate.
Qed.

Lemma failure_shown_and_start_clears_witness :
  let fetch : Fetch := fun _ _ => Rejected "Failed to fetch" in
  let s' := handleTestApi fetch (initialState 1700000000000) in
  (exists text, error s' = Some text /\ text = "Error: Failed to fetch" /\ text <> "")
  /\ response s' = None
  /\ isLoading s' = false
  /\ (forall previous : State,
         let started := handleTestApi_begin previous in
         isLoading started = true /\ response started = None /\ error started = None).
Proof.
  intros fetch s'.
  exact (failure_shown_and_start_clears
           fetch (initialState 1700000000000)
           "https://jsonplaceholder.typicode.com/posts/1"
           (RequestInit.mk "GET" [("Content-Type", "application/json")] None)
           "Failed to fetch" eq_refl eq_refl).
Defined.

(** A body that does not parse ends the same way, status and all. *)
Example parse_failure_shown :
  let res := Response.mk 200 "OK" (Rejected "Unexpected token < in JSON at position 0") in
  let s' := handleTestApi (fun _ _ => Fulfilled res) (initialState 1700000000000) in
  error s' = Some "Error: Unexpected token < in JSON at position 0"
  /\ response s' = None /\ isLoading s' = false.
Proof. repeat split. Qed.

(** ** The display fields *)

Lemma perform_display (a : Action) (s : State) :
  isLoading (perform a s) = isLoading s
  /\ (response (perform a s) = None \/ response (perform a s) = response s)
  /\ (error (perform a s) = None \/ error (perform a s) = error s).
Proof. destruct a; simpl; auto. Qed.

Lemma stringifyObject_nonempty (props : list (string * JSValue)) (space : nat) :
  stringifyObject props space <> "".
Proof.
  unfold stringifyObject, JSON.stringify. simpl.
  destruct (List.flat_map _ props); discriminate.
Qed.

(** The setter calls of a run, made one after the other, are
    [handleTestApi_settle]. *)
Lemma settleUpdates_applied (outcome : settled Response.t) (s : State) :
  List.fold_left (fun s u => applyUpdate u s) (settleUpdates outcome) s
  = handleTestApi_settle outcome s.
Proof.
  unfold settleUpdates, handleTestApi_settle, handleTestApi_try.
  destruct outcome as [res|m]; [destruct (Response.json res) as [data|m]|]; reflexivity.
Qed.

Lemma settleUpdates_closing (outcome : settled Response.t) (s : State) :
  response s = None -> error s = None ->
  settleUpdates outcome <> [] /\ closing s (settleUpdates outcome).
Proof.
  intros Hr He. unfold settleUpdates.
  destruct outcome as [res|m]; [destruct (Response.json res) as [data|m]|];
    (split; [discriminate|]).
  - apply closing_success; [apply stringifyObject_nonempty|assumption..].
  - apply closing_failure; [discriminate|assumption..].
  - apply closing_failure; [discriminate|assumption..].
Qed.

Lemma step_invariant (x y : Session) :
  session_invariant x -> step x y -> session_invariant y.
Proof.
  intros (Hx & [Hte Htr] & Hk) Hs. unfold session_invariant, textsNotEmpty.
  destruct Hs as [a s n Ho | s n m Hi Hr | s n r Hi Hr | s n outcome | s n u rest];
    simpl in *.
  - destruct Hk as [Hl Hp]. destruct (perform_display a s) as (El & Er & Ee).
    split; [|split; [split|split]].
    + destruct Er as [Er|Er]; [now left|]. destruct Ee as [Ee|Ee]; [now right|].
      rewrite Er, Ee. exact Hx.
    + intros text H. destruct Ee as [Ee|Ee]; rewrite Ee in H;
        [discriminate H|now apply Hte].
    + intros text H. destruct Er as [Er|Er]; rewrite Er in H;
        [discriminate H|now apply Htr].
    + rewrite El. intros H. destruct (Hl H) as [R E].
      split; [destruct Er as [Er|Er]; rewrite Er | destruct Ee as [Ee|Ee]; rewrite Ee];
        auto.
    + rewrite El. exact Hp.
  - destruct Hk as [_ Hp].
    split; [now left|]. split; [split; intros text H; discriminate H|].
    split; [auto|]. destruct Hp as [Hp|[Hp Hl']]; [now left|congruence].
  - destruct Hk as [_ Hp].
    split; [now left|]. split; [split; intros text H; discriminate H|].
    split; [auto|]. destruct Hp as [->|[_ Hl']]; [now right|congruence].
  - destruct Hk as [Hl [Hp|[Hp Hl']]]; [discriminate Hp|].
    injection Hp as ->. destruct (Hl Hl') as [R E].
    split; [exact Hx|]. split; [now split|].
    destruct (settleUpdates_closing outcome s R E) as [Hne Hc].
    destruct (settleUpdates outcome) as [|u rest]; [now contradiction Hne|].
    now repeat split.
  - destruct Hk as (Hp & Hl & Hc).
    inversion Hc as [text Ht R E| text Ht R E| R |]; subst; simpl.
    + split; [now right|]. split; [split; intros t H|].
      * rewrite E in H. discriminate H.
      * injection H as <-. exact Ht.
      * repeat split; try assumption. apply closing_flag.
    + split; [now left|]. split; [split; intros t H|].
      * injection H as <-. exact Ht.
      * rewrite R in H. discriminate H.
      * repeat split; try assumption. now apply closing_clear.
    + split; [now left|]. split; [split; intros t H|].
      * now apply Hte.
      * discriminate H.
      * repeat split; try assumption. apply closing_flag.
    + split; [exact Hx|]. split; [now split|].
      split; [intros H; discriminate H|now left].
Qed.

Lemma reachable_invariant (x : Session) : reachable x -> session_invariant x.
Proof.
  induction 1 as [now|x y _ IH Hs].
  - split; [now left|]. split; [split; intros text H; discriminate H|].
    simpl. split; [intros H; discriminate H|now left].
  - exact (step_invariant x y IH Hs).
Qed.

Lemma reachable_steps (x y : Session) : reachable x -> steps x y -> reachable y.
Proof.
  intros Hx Hs. induction Hs as [x|x y z _ IH Hyz]; [exact Hx|].
  exact (reachable_step y z (IH Hx) Hyz).
Qed.

(** The end of a run, call by call, arrives at [handleTestApi_settle]. *)
Lemma settle_steps (outcome : settled Response.t) (s : State) (n : nat) :
  steps (mkSession s (S n)) (mkSession (handleTestApi_settle outcome s) n).
Proof.
  rewrite <- settleUpdates_applied.
  assert (H : forall rest s', steps (mkSession s (S n)) (session s' n rest) ->
                              steps (mkSession s (S n))
                                    (mkSession (List.fold_left (fun s u => applyUpdate u s)
                                                               rest s') n)).
  { induction rest as [|u rest IH]; intros s' Hs; simpl; [exact Hs|].
    apply IH. eapply steps_more; [exact Hs|apply step_update]. }
  apply H. eapply steps_more; [apply steps_none|apply step_settle].
Qed.




(** ** The exported configuration *)

(** C5, as the specification states it, fails: the elements of the
    exported [headers] are not the entries without their ids. *)
Lemma export_keeps_ids_counterexample :
  getProperty "headers" (apiConfig exportScenario)
  = Some (VArray [VObject [("id", VNumber "1700000000001");
                           ("key", VString "Accept"); ("value", VString "*/*")]])
  /\ getProperty "headers" (apiConfig exportScenario)
     <> Some (VArray (List.map KeyValue_stripped
                               (List.filter keyNotBlank (headers exportScenario)))).
Proof. split; [reflexivity|]. intros H. discriminate H. Qed.

(** C5, amended. The exported document holds [apiUrl], [apiMethod], the
    query parameters and the headers whose trimmed key is not empty, each
    as [{id, key, value}] with its id kept, and [requestBody] exactly when
    the method is one of POST, PUT, PATCH; in the export scenario the
    [headers] array has exactly one element. *)
Theorem export_document :
  (forall s : State,
      let element e := VObject [("id", VNumber (ofInteger (id e)));
                                ("key", VString (key e));
                                ("value", VString (value e))] in
      dataStr s
      = stringifyObject
          ([("apiUrl", VString (apiUrl s));
            ("apiMethod", VString (apiMethod s));
            ("queryParams",
             VArray (List.map element (List.filter keyNotBlank (queryParams s))));
            ("headers",
             VArray (List.map element (List.filter keyNotBlank (headers s))))]
             ++ (if includes methodsWithBody (apiMethod s)
                 then [("requestBody", VString (requestBody s))]
                 else []))%list 2)
  /\ (exists element,
         getProperty "headers" (apiConfig exportScenario) = Some (VArray [element])).
Proof.
  split.
  - intros s element. unfold dataStr, apiConfig.
    destruct (includes methodsWithBody (apiMethod s)); reflexivity.
  - eexists. reflexivity.
Qed.

(** The text exported in the scenario. *)
Example export_scenario_text :
  dataStr exportScenario
  = "{" ++ LF
    ++ "  " ++ dquote ++ "apiUrl" ++ dquote ++ ": "
            ++ dquote ++ "https://api.example.com/items" ++ dquote ++ "," ++ LF
    ++ "  " ++ dquote ++ "apiMethod" ++ dquote ++ ": "
            ++ dquote ++ "GET" ++ dquote ++ "," ++ LF
    ++ "  " ++ dquote ++ "queryParams" ++ dquote ++ ": []," ++ LF
    ++ "  " ++ dquote ++ "headers" ++ dquote ++ ": [" ++ LF
    ++ "    {" ++ LF
    ++ "      " ++ dquote ++ "id" ++ dquote ++ ": 1700000000001," ++ LF
    ++ "      " ++ dquote ++ "key" ++ dquote ++ ": "
                ++ dquote ++ "Accept" ++ dquote ++ "," ++ LF
    ++ "      " ++ dquote ++ "value" ++ dquote ++ ": "
                ++ dquote ++ "*/*" ++ dquote ++ LF
    ++ "    }" ++ LF
    ++ "  ]" ++ LF
    ++ "}".
Proof. reflexivity. Qed.

(** ** The headers of the request *)

Section RequestHeaders.

(** The body of the loop of lines 73-77. *)
Let appendEntry (acc : completion Headers.t) (header : KeyValue)
  : completion Headers.t :=
  requestHeaders <- acc ;;
  if keyNotBlank header
  then Headers.append (key header) (value header) requestHeaders
  else Return requestHeaders.

Lemma fold_after_throw (l : list KeyValue) (m : string) :
  List.fold_left appendEntry l (Throw m) = Throw m.
Proof. induction l as [|e l IH]; simpl; [reflexivity|exact IH]. Qed.

Lemma sameName_refl (a : string) : Headers.sameName a a = true.
Proof. apply String.eqb_refl. Qed.

Lemma sameName_trans (a b n : string) :
  Headers.sameName a b = true -> Headers.sameName a n = Headers.sameName b n.
Proof. unfold Headers.sameName. intros H. apply String.eqb_eq in H. now rewrite H. Qed.

Lemma appendHeader_name (name v : string) (hl : Headers.t) :
  exists name', Headers.appendHeader name v hl = (hl ++ [(name', v)])%list
                /\ Headers.sameName name' name = true.
Proof.
  unfold Headers.appendHeader.
  destruct (List.find (fun h => Headers.sameName (fst h) name) hl) as [h|] eqn:E.
  - exists (fst h). split; [reflexivity|]. now apply List.find_some in E as [_ E].
  - exists name. split; [reflexivity|apply sameName_refl].
Qed.

Lemma append_accepted (e : KeyValue) (hl : Headers.t) :
  headerAccepted e = true ->
  Headers.append (key e) (value e) hl
  = Return (Headers.appendHeader (key e) (headerValue e) hl).
Proof.
  unfold headerAccepted, Headers.append, headerValue. intros H.
  apply andb_prop in H as [H Hv]. apply andb_prop in H as [H Hn].
  rewrite H, Hn, Hv. reflexivity.
Qed.

Lemma append_refused (e : KeyValue) (hl : Headers.t) :
  headerAccepted e = false ->
  exists m, Headers.append (key e) (value e) hl = Throw m.
Proof.
  unfold headerAccepted, Headers.append. intros H.
  destruct (Headers.isByteString (key e) && Headers.isByteString (value e)); simpl in *.
  - eexists. rewrite H. reflexivity.
  - eexists. reflexivity.
Qed.

Lemma fold_accepted (l : list KeyValue) (hl : Headers.t) :
  List.forallb headerAccepted (List.filter keyNotBlank l) = true ->
  exists hl',
    List.fold_left appendEntry l (Return hl) = Return (hl ++ hl')%list
    /\ List.map snd hl' = List.map headerValue (List.filter keyNotBlank l)
    /\ List.Forall2 (fun h e => Headers.sameName (fst h) (key e) = true)
                    hl' (List.filter keyNotBlank l).
Proof.
  revert hl. induction l as [|e l IH]; intros hl H; simpl in *.
  - exists []. rewrite List.app_nil_r. repeat split. constructor.
  - destruct (keyNotBlank e) eqn:Ek; simpl in H.
    + apply andb_prop in H as [He Hl]. rewrite (append_accepted e hl He).
      destruct (appendHeader_name (key e) (headerValue e) hl) as (name' & -> & Hn).
      destruct (IH (hl ++ [(name', headerValue e)])%list Hl) as (hl' & -> & Hv & Hf).
      exists ((name', headerValue e) :: hl'). rewrite <- List.app_assoc. simpl.
      repeat split; [now rewrite Hv|]. now constructor.
    + exact (IH hl H).
Qed.

Lemma fold_refused (l : list KeyValue) (hl : Headers.t) :
  List.forallb headerAccepted (List.filter keyNotBlank l) = false ->
  exists m, List.fold_left appendEntry l (Return hl) = Throw m.
Proof.
  revert hl. induction l as [|e l IH]; intros hl H; simpl in *; [discriminate H|].
  destruct (keyNotBlank e) eqn:Ek; simpl in H.
  - destruct (headerAccepted e) eqn:He; simpl in H.
    + rewrite (append_accepted e hl He). apply IH, H.
    + destruct (append_refused e hl He) as (m & ->). exists m. apply fold_after_throw.
  - apply IH, H.
Qed.

Lemma filter_by_name (hl : Headers.t) (es : list KeyValue) (name : string) :
  List.Forall2 (fun h e => Headers.sameName (fst h) (key e) = true) hl es ->
  List.map snd hl = List.map headerValue es ->
  List.map snd (List.filter (fun h => Headers.sameName (fst h) name) hl)
  = List.map headerValue (List.filter (fun e => Headers.sameName (key e) name) es).
Proof.
  induction 1 as [|h e hl es Hn _ IH]; intros Hv; simpl in *; [reflexivity|].
  injection Hv as Hv1 Hv2. rewrite (sameName_trans _ _ name Hn).
  destruct (Headers.sameName (key e) name); simpl; rewrite (IH Hv2); congruence.
Qed.

Lemma get_joined (hl : Headers.t) (es : list KeyValue) (e : KeyValue) :
  List.Forall2 (fun h e => Headers.sameName (fst h) (key e) = true) hl es ->
  List.map snd hl = List.map headerValue es ->
  In e es ->
  Headers.get (key e) hl
  = Some (join ", " (List.map headerValue
                        (List.filter (fun e' => Headers.sameName (key e') (key e)) es))).
Proof.
  intros Hf Hv Hin. unfold Headers.get.
  rewrite <- (filter_by_name hl es (key e) Hf Hv).
  destruct (List.filter (fun h => Headers.sameName (fst h) (key e)) hl) as [|h hs] eqn:E;
    [|now rewrite <- E].
  exfalso.
  assert (Hne : In e (List.filter (fun e' => Headers.sameName (key e') (key e)) es)).
  { apply List.filter_In. split; [assumption|apply sameName_refl]. }
  pose proof (filter_by_name hl es (key e) Hf Hv) as Hm. rewrite E in Hm. simpl in Hm.
  symmetry in Hm. apply List.map_eq_nil in Hm. rewrite Hm in Hne. exact Hne.
Qed.

End RequestHeaders.

(** C7, as the specification states it, fails: of two headers of one
    name both values are kept, and reading the name gives both, not the
    last one. *)
Lemma headers_last_write_counterexample :
  requestHeaders duplicateHeaders = Return [("X-Token", "one"); ("X-Token", "two")]
  /\ lastValue "X-Token" (List.filter keyNotBlank (headers duplicateHeaders)) = Some "two"
  /\ Headers.get "X-Token" [("X-Token", "one"); ("X-Token", "two")] = Some "one, two"
  /\ Headers.get "X-Token" [("X-Token", "one"); ("X-Token", "two")]
     <> lastValue "X-Token" (List.filter keyNotBlank (headers duplicateHeaders)).
Proof. repeat split. intros H. discriminate H. Qed.

(** C7, amended. The entries whose trimmed key is empty are left out.
    When every remaining entry has a name and a value that [Headers.append]
    accepts, the header list holds one header for each of them, in their
    order, with the value stripped of leading and trailing HTTP whitespace
    and a name that matches the key without regard to case; no header
    replaces another, so reading the name of an entry gives the values of
    all the entries of that name, in order, joined by a comma and a space.
    Otherwise [append] throws. *)
Theorem request_headers_appended (s : State) :
  let retained := List.filter keyNotBlank (headers s) in
  (List.forallb headerAccepted retained = true ->
   exists hl,
     requestHeaders s = Return hl
     /\ List.map snd hl = List.map headerValue retained
     /\ List.Forall2 (fun h e => Headers.sameName (fst h) (key e) = true) hl retained
     /\ (forall e, In e retained ->
                   Headers.get (key e) hl
                   = Some (join ", " (List.map headerValue
                                         (List.filter
                                            (fun e' => Headers.sameName (key e') (key e))
                                            retained)))))
  /\ (List.forallb headerAccepted retained = false ->
      exists m, requestHeaders s = Throw m).
Proof.
  intros retained. split; intros H.
  - destruct (fold_accepted (headers s) [] H) as (hl & E & Hv & Hf).
    exists hl. repeat split; try assumption.
    intros e He. now apply get_joined.
  - exact (fold_refused (headers s) [] H).
Qed.

Lemma request_headers_appended_witness :
  exists hl,
    requestHeaders duplicateHeaders = Return hl
    /\ List.map snd hl = ["one"; "two"]
    /\ Headers.get "X-Token" hl = Some "one, two".
Proof.
  destruct (proj1 (request_headers_appended duplicateHeaders) eq_refl)
    as (hl & E & Hv & _ & Hg).
  exists hl. repeat split; [exact E|exact Hv|].
  exact (Hg (mkKeyValue 1700000000000 "X-Token" "one") (or_introl eq_refl)).
Defined.

(** A name with a blank inside is refused, and so is the request. *)
Example header_name_refused :
  requestHeaders (setHeaders [mkKeyValue 1 "Content Type" "text/plain"]
                             (initialState 1700000000000))
  = Throw "TypeError".
Proof. reflexivity. Qed.

(** ** Records and the query string *)

Section Records.

Lemma define_absent (k v : string) (o : JSObject.t) :
  ~ In k (List.map fst o) -> JSObject.define k v o = (o ++ [(k, v)])%list.
Proof.
  induction o as [|[k' v'] o IH]; intros H; simpl in *; [reflexivity|].
  destruct (String.eqb_spec k' k) as [E|E].
  - exfalso. apply H. now left.
  - rewrite IH; [reflexivity|]. intros Hin. apply H. now right.
Qed.

Lemma define_keys_In (k v k0 : string) (o : JSObject.t) :
  In k0 (List.map fst (JSObject.define k v o)) <-> k0 = k \/ In k0 (List.map fst o).
Proof.
  induction o as [|[k' v'] o IH]; simpl.
  - intuition.
  - destruct (String.eqb_spec k' k) as [E|E]; simpl.
    + subst. intuition.
    + rewrite IH. intuition.
Qed.

Lemma define_NoDup (k v : string) (o : JSObject.t) :
  NoDup (List.map fst o) -> NoDup (List.map fst (JSObject.define k v o)).
Proof.
  induction o as [|[k' v'] o IH]; simpl; intros H.
  - repeat constructor. intros [].
  - inversion H as [|? ? Hn Hd]; subst.
    destruct (String.eqb_spec k' k) as [E|E]; simpl.
    + now constructor.
    + constructor; [|now apply IH].
      rewrite define_keys_In. intros [->|Hin]; [now apply E|now apply Hn].
Qed.

Lemma define_In (k v k0 v0 : string) (o : JSObject.t) :
  NoDup (List.map fst o) ->
  In (k0, v0) (JSObject.define k v o)
  <-> (k0 = k /\ v0 = v) \/ (k0 <> k /\ In (k0, v0) o).
Proof.
  induction o as [|[k' v'] o IH]; simpl; intros H.
  - split.
    + intros [E|[]]. injection E as <- <-. now left.
    + intros [[-> ->]|[_ []]]. now left.
  - inversion H as [|? ? Hn Hd]; subst.
    destruct (String.eqb_spec k' k) as [E|E]; simpl.
    + subst k'. split.
      * intros [E|Hin]; [injection E as <- <-; now left|].
        right. split; [|now right]. intros ->. apply Hn.
        apply List.in_map_iff. now exists (k, v0).
      * intros [[-> ->]|[Hk [E|Hin]]]; [now left| |now right].
        injection E as -> _. now contradiction Hk.
    + rewrite (IH Hd). split.
      * intros [E'|[[-> ->]|[Hk Hin]]].
        -- injection E' as <- <-. right. split; [exact E|now left].
        -- now left.
        -- right. split; [exact Hk|now right].
      * intros [[-> ->]|[Hk [E'|Hin]]].
        -- right. now left.
        -- now left.
        -- right. right. now split.
Qed.

Lemma set_NoDup (k v : string) (o : JSObject.t) :
  NoDup (List.map fst o) -> NoDup (List.map fst (JSObject.set k v o)).
Proof.
  unfold JSObject.set. destruct (k =? "__proto__"); [auto|apply define_NoDup].
Qed.

Lemma lastValue_cons (k : string) (e : KeyValue) (l : list KeyValue) :
  lastValue k (e :: l)
  = match lastValue k l with
    | Some v => Some v
    | None => if key e =? k then Some (value e) else None
    end.
Proof.
  unfold lastValue. simpl.
  induction (List.rev l) as [|x r IH]; simpl.
  - now destruct (key e =? k).
  - destruct (key x =? k); [reflexivity|exact IH].
Qed.

Lemma lastValue_In (k v : string) (l : list KeyValue) :
  lastValue k l = Some v -> exists e, In e l /\ key e = k /\ value e = v.
Proof.
  unfold lastValue. intros H.
  destruct (List.find (fun e => key e =? k) (List.rev l)) as [e|] eqn:E;
    [|discriminate H].
  injection H as <-. apply List.find_some in E as [Hin Hk].
  exists e. split; [now apply List.in_rev|]. split; [now apply String.eqb_eq|reflexivity].
Qed.

Lemma lastValue_found (e : KeyValue) (l : list KeyValue) :
  In e l -> exists v, lastValue (key e) l = Some v.
Proof.
  unfold lastValue. intros H.
  destruct (List.find (fun e' => key e' =? key e) (List.rev l)) as [x|] eqn:E.
  - now exists (value x).
  - exfalso. apply List.in_rev in H.
    pose proof (List.find_none _ _ E e H) as Hn. simpl in Hn.
    now rewrite String.eqb_refl in Hn.
Qed.

(** The record after the writes of lines 62-65, from any record [o]. *)
Lemma fold_set_NoDup (l : list KeyValue) (o : JSObject.t) :
  NoDup (List.map fst o) ->
  NoDup (List.map fst
           (List.fold_left (fun acc param => JSObject.set (key param) (value param) acc)
                           l o)).
Proof.
  revert o. induction l as [|e l IH]; intros o H; simpl; [exact H|].
  apply IH, set_NoDup, H.
Qed.

Lemma fold_set_In (l : list KeyValue) (o : JSObject.t) (k v : string) :
  NoDup (List.map fst o) ->
  In (k, v) (List.fold_left (fun acc param => JSObject.set (key param) (value param) acc)
                            l o)
  <-> (k <> "__proto__" /\ lastValue k l = Some v)
      \/ ((k = "__proto__" \/ lastValue k l = None) /\ In (k, v) o).
Proof.
  revert o. induction l as [|e l IH]; intros o H; simpl.
  - unfold lastValue. simpl. split; [intros Hin; right; auto|].
    intros [[_ E]|[_ Hin]]; [discriminate E|exact Hin].
  - rewrite (IH _ (set_NoDup (key e) (value e) o H)), lastValue_cons.
    unfold JSObject.set.
    destruct (String.eqb_spec (key e) "__proto__") as [Ep|Ep].
    + destruct (lastValue k l) as [v'|]; [tauto|].
      destruct (String.eqb_spec (key e) k) as [Ek|Ek]; [|tauto].
      assert (k = "__proto__") by congruence. split.
      * intros [[Hk _]|[_ Hin]]; [contradiction|]. right. split; [now left|exact Hin].
      * intros [[Hk _]|[_ Hin]]; [contradiction|]. right. split; [now right|exact Hin].
    + rewrite (define_In (key e) (value e) k v o H).
      destruct (lastValue k l) as [v'|].
      * split.
        -- intros [Hl|[[Hk|Hk] Hin]]; [now left|right|discriminate Hk].
           split; [now left|]. destruct Hin as [[-> _]|[_ Hin]]; [contradiction|exact Hin].
        -- intros [Hl|[[Hk|Hk] Hin]]; [now left|right|discriminate Hk].
           split; [now left|]. right. split; [congruence|exact Hin].
      * destruct (String.eqb_spec (key e) k) as [Ek|Ek].
        -- subst k. split.
           ++ intros [[_ Hl]|[_ [[_ ->]|[Hk _]]]];
                [discriminate Hl|left; now split|contradiction].
           ++ intros [[_ Hv]|[[Hk|Hk] _]];
                [injection Hv as <-|contradiction|discriminate Hk].
              right. split; [now right|now left].
        -- split.
           ++ intros [[_ Hl]|[Hc [[Hk _]|[_ Hin]]]];
                [discriminate Hl|now symmetry in Hk|right; now split].
           ++ intros [[_ Hl]|[Hc Hin]]; [discriminate Hl|].
              right. split; [exact Hc|]. right. split; [congruence|exact Hin].
Qed.

End Records.

Section OwnEntries.

Lemma insertByIndex_Permutation (x : Z * (string * string))
      (l : list (Z * (string * string))) :
  Permutation (JSObject.insertByIndex x l) (x :: l).
Proof.
  induction l as [|y l IH]; simpl; [reflexivity|].
  destruct (fst x <=? fst y)%Z; [reflexivity|].
  rewrite IH. apply perm_swap.
Qed.

Lemma sorted_Permutation (l : list (Z * (string * string))) :
  Permutation (List.fold_right JSObject.insertByIndex [] l) l.
Proof.
  induction l as [|x l IH]; simpl; [reflexivity|].
  rewrite insertByIndex_Permutation. now constructor.
Qed.

Lemma indexed_entries (o : JSObject.t) :
  List.map snd (JSObject.indexed o)
  = List.filter (fun p => JSObject.isArrayIndex (fst p)) o.
Proof.
  unfold JSObject.indexed, JSObject.isArrayIndex.
  induction o as [|p o IH]; simpl; [reflexivity|].
  rewrite List.map_app, IH. now destruct (JSObject.arrayIndex (fst p)).
Qed.

Lemma filter_split_Permutation {A : Type} (f : A -> bool) (l : list A) :
  Permutation (List.filter f l ++ List.filter (fun x => negb (f x)) l)%list l.
Proof.
  induction l as [|x l IH]; simpl; [reflexivity|].
  destruct (f x); simpl.
  - now constructor.
  - rewrite <- Permutation_middle. now constructor.
Qed.

(** The own entries are the properties of the record, reordered. *)
Lemma ownEntries_Permutation (o : JSObject.t) :
  Permutation (JSObject.ownEntries o) o.
Proof.
  unfold JSObject.ownEntries.
  rewrite (Permutation_map snd (sorted_Permutation (JSObject.indexed o))).
  rewrite indexed_entries.
  apply (filter_split_Permutation (fun p => JSObject.isArrayIndex (fst p))).
Qed.

(** Without array indices among the keys the order is that of creation. *)
Lemma ownEntries_plain (o : JSObject.t) :
  List.forallb (fun p => negb (JSObject.isArrayIndex (fst p))) o = true ->
  JSObject.ownEntries o = o.
Proof.
  intros H. unfold JSObject.ownEntries.
  assert (Hi : JSObject.indexed o = []).
  { unfold JSObject.indexed. induction o as [|p o IH]; simpl in *; [reflexivity|].
    apply andb_prop in H as [Hp Ho]. rewrite (IH Ho).
    unfold JSObject.isArrayIndex in Hp.
    now destruct (JSObject.arrayIndex (fst p)). }
  rewrite Hi. simpl.
  induction o as [|p o IH]; simpl in *; [reflexivity|].
  apply andb_prop in H as [Hp Ho]. rewrite Hp. f_equal. apply IH; [exact Ho|].
  unfold JSObject.indexed in Hi. simpl in Hi.
  apply List.app_eq_nil in Hi as [_ Hi]. exact Hi.
Qed.

(** Distinct keys, none of them [__proto__], are written one after the
    other. *)
Lemma fold_set_distinct (l : list KeyValue) (o : JSObject.t) :
  NoDup (List.map key l) ->
  (forall e, In e l -> key e <> "__proto__" /\ ~ In (key e) (List.map fst o)) ->
  List.fold_left (fun acc param => JSObject.set (key param) (value param) acc) l o
  = (o ++ List.map pairOf l)%list.
Proof.
  revert o. induction l as [|e l IH]; intros o Hd Hk; simpl.
  - now rewrite List.app_nil_r.
  - inversion Hd as [|? ? Hn Hd']; subst.
    destruct (Hk e (or_introl eq_refl)) as [Hp Ho].
    unfold JSObject.set at 2. apply String.eqb_neq in Hp. rewrite Hp.
    rewrite (define_absent (key e) (value e) o Ho), IH.
    + now rewrite <- List.app_assoc.
    + exact Hd'.
    + intros e' He'. destruct (Hk e' (or_intror He')) as [Hp' Ho'].
      split; [exact Hp'|]. rewrite List.map_app, List.in_app_iff. simpl.
      intros [Hin|[E|[]]]; [contradiction|].
      apply Hn. rewrite E. now apply List.in_map.
Qed.

Lemma paramsRecord_plain (l : list KeyValue) :
  NoDup (List.map key l) ->
  List.forallb (fun e => plainKey (key e)) l = true ->
  JSObject.ownEntries (paramsRecord l) = List.map pairOf l.
Proof.
  intros Hd Hp. unfold paramsRecord.
  rewrite List.forallb_forall in Hp.
  rewrite fold_set_distinct; simpl.
  - apply ownEntries_plain. apply List.forallb_forall.
    intros p Hin. apply List.in_map_iff in Hin as (e & <- & He).
    specialize (Hp e He). unfold plainKey in Hp. now apply andb_prop in Hp as [Hp _].
  - exact Hd.
  - intros e He. specialize (Hp e He). unfold plainKey in Hp.
    apply andb_prop in Hp as [_ Hp]. split; [|intros []].
    intros E. rewrite E in Hp. discriminate Hp.
Qed.

Lemma finalUrl_cases (s : State) :
  finalUrl s
  = match List.filter keyNotBlank (queryParams s) with
    | [] => apiUrl s
    | filteredParams =>
        apiUrl s ++ "?"
        ++ URLSearchParams.toString (JSObject.ownEntries (paramsRecord filteredParams))
    end.
Proof.
  unfold finalUrl, paramsRecord, URLSearchParams.ofRecord.
  destruct (queryParams s) as [|e l]; [reflexivity|].
  change (0 <? List.length (e :: l))%nat with true. cbv iota.
  destruct (List.filter keyNotBlank (e :: l)); reflexivity.
Qed.

(** What the query string is made of. *)
Lemma query_pairs (s : State) :
  List.filter keyNotBlank (queryParams s) <> [] ->
  exists pairs,
    finalUrl s = apiUrl s ++ "?" ++ URLSearchParams.toString pairs
    /\ Permutation pairs (paramsRecord (List.filter keyNotBlank (queryParams s)))
    /\ pairs = JSObject.ownEntries (paramsRecord (List.filter keyNotBlank (queryParams s))).
Proof.
  intros H. eexists. split; [|split; [|reflexivity]].
  - rewrite finalUrl_cases.
    destruct (List.filter keyNotBlank (queryParams s)); [contradiction|reflexivity].
  - apply ownEntries_Permutation.
Qed.

End OwnEntries.

Lemma query_pairs_spec (s : State) :
  let filtered := List.filter keyNotBlank (queryParams s) in
  filtered <> [] ->
  exists pairs,
    finalUrl s = apiUrl s ++ "?" ++ URLSearchParams.toString pairs
    /\ NoDup (List.map fst pairs)
    /\ (forall k v, In (k, v) pairs
                    <-> k <> "__proto__" /\ lastValue k filtered = Some v)
    /\ (NoDup (List.map key filtered) ->
        List.forallb (fun e => plainKey (key e)) filtered = true ->
        pairs = List.map pairOf filtered).
Proof.
  intros filtered H. destruct (query_pairs s H) as (pairs & E & Hp & Ho).
  fold filtered in Hp, Ho.
  exists pairs. split; [exact E|]. split; [|split].
  - apply (Permutation_NoDup (Permutation_sym (Permutation_map fst Hp))).
    apply fold_set_NoDup. constructor.
  - intros k v. split.
    + intros Hin. apply (Permutation_in _ Hp) in Hin.
      apply fold_set_In in Hin; [|constructor].
      destruct Hin as [Hin|[_ []]]. exact Hin.
    + intros Hin. apply (Permutation_in _ (Permutation_sym Hp)).
      apply fold_set_In; [constructor|]. now left.
  - intros Hd Hk. rewrite Ho. now apply paramsRecord_plain.
Qed.

(** C1, as the specification states it, fails: of two parameters of one
    key only the last value is sent, not the encoding of both entries. *)
Lemma query_duplicate_keys_counterexample :
  let filtered := List.filter keyNotBlank (queryParams duplicateParams) in
  finalUrl duplicateParams = "https://api.example.com/items?a=2"
  /\ apiUrl duplicateParams ++ "?" ++ URLSearchParams.toString (List.map pairOf filtered)
     = "https://api.example.com/items?a=1&a=2"
  /\ finalUrl duplicateParams
     <> apiUrl duplicateParams ++ "?"
        ++ URLSearchParams.toString (List.map pairOf filtered).
Proof. repeat split. intros H. discriminate H. Qed.

(** C1, amended. The query parameters whose trimmed key is empty are left
    out. When none remains the URL is [apiUrl] as it is, without a [?].
    Otherwise the URL is [apiUrl], a [?] and the form-urlencoded text of
    the record made from the remaining entries: each key other than
    [__proto__] once, with the value of the last remaining entry of that
    key; when the remaining keys are pairwise distinct and none is an array
    index or [__proto__], that is the encoding of exactly the remaining
    entries, in their order. *)
Theorem final_url_query (s : State) :
  let filtered := List.filter keyNotBlank (queryParams s) in
  (filtered = [] -> finalUrl s = apiUrl s)
  /\ (filtered <> [] ->
      exists pairs,
        finalUrl s = apiUrl s ++ "?" ++ URLSearchParams.toString pairs
        /\ NoDup (List.map fst pairs)
        /\ (forall k v, In (k, v) pairs
                        <-> k <> "__proto__" /\ lastValue k filtered = Some v)
        /\ (NoDup (List.map key filtered) ->
            List.forallb (fun e => plainKey (key e)) filtered = true ->
            pairs = List.map pairOf filtered)).
Proof.
  intros filtered. split.
  - intros H. rewrite finalUrl_cases. fold filtered. now rewrite H.
  - apply query_pairs_spec.
Qed.

(** The query-filtering scenario: of [{key:"", value:"x"}] and
    [{key:"a", value:"b"}] the URL gets exactly [?a=b]. *)
Lemma final_url_query_witness :
  List.filter keyNotBlank (queryParams filterScenario)
  = [mkKeyValue 1700000000001 "a" "b"]
  /\ finalUrl filterScenario = apiUrl filterScenario ++ "?a=b".
Proof.
  split; [reflexivity|].
  destruct (proj2 (final_url_query filterScenario)) as (pairs & E & _ & _ & Hp).
  - intros H. discriminate H.
  - rewrite E, Hp.
    + reflexivity.
    + repeat constructor. intros [].
    + reflexivity.
Defined.

(** End-to-end scenario 1 of the specification. *)
Example final_url_limit :
  finalUrl (mkState "https://api.example.com/items" "GET"
                    [mkKeyValue 1700000000000 "limit" "10"]
                    [mkKeyValue 1690000000000 "Content-Type" "application/json"]
                    "" None false None)
  = "https://api.example.com/items?limit=10".
Proof. reflexivity. Qed.

(** The key [__proto__] creates no property: alone, it leaves the record
    empty and the URL with a bare [?]. *)
Example final_url_proto :
  finalUrl (mkState "https://api.example.com/items" "GET"
                    [mkKeyValue 1 "__proto__" "x"] [] "" None false None)
  = "https://api.example.com/items?".
Proof. reflexivity. Qed.

(** Keys that are array indices come first, in ascending order, and a
    key written twice stays where it was first written. *)
Example final_url_record_order :
  finalUrl (mkState "https://api.example.com/items" "GET"
                    [mkKeyValue 1 "b" "1"; mkKeyValue 2 "10" "2";
                     mkKeyValue 3 "9" "x y&z"; mkKeyValue 4 "b" "3";
                     mkKeyValue 5 "01" "q"] [] "" None false None)
  = "https://api.example.com/items?9=x+y%26z&10=2&b=3&01=q".
Proof. reflexivity. Qed.

(** C10. The filter looks at the trimmed key, the query string is made of
    the keys and values as they were entered: every pair sent is the key
    and the value of an entry that passed the filter, unchanged, and every
    entry that passed has its key, unchanged, among the pairs (but for the
    key [__proto__]). A single entry with the key [" a "] and the value
    ["b"] is kept and sent as [+a+=b], the blanks around the key encoded,
    and not as [a=b]. *)
Theorem query_pairs_untrimmed :
  (forall s : State,
      List.filter keyNotBlank (queryParams s) <> [] ->
      exists pairs,
        finalUrl s = apiUrl s ++ "?" ++ URLSearchParams.toString pairs
        /\ (forall k v, In (k, v) pairs ->
                        exists e, In e (queryParams s) /\ trim (key e) <> ""
                                  /\ key e = k /\ value e = v)
        /\ (forall e, In e (queryParams s) -> trim (key e) <> "" ->
                      key e <> "__proto__" ->
                      exists v, In (key e, v) pairs))
  /\ (forall (s : State) (e : KeyValue),
         queryParams s = [e] -> trim (key e) <> "" -> plainKey (key e) = true ->
         finalUrl s = apiUrl s ++ "?" ++ URLSearchParams.percentEncode (key e)
                             ++ "=" ++ URLSearchParams.percentEncode (value e))
  /\ finalUrl paddedParam = "https://api.example.com/items?+a+=b"
  /\ finalUrl paddedParam <> "https://api.example.com/items?a=b".
Proof.
  split; [|split; [|split]].
  - intros s H. destruct (query_pairs_spec s H) as (pairs & E & _ & Hin & _).
    exists pairs. split; [exact E|]. split.
    + intros k v Hkv. apply Hin in Hkv as [_ Hl].
      apply lastValue_In in Hl as (e & He & Hk & Hv).
      apply List.filter_In in He as [He Hb].
      exists e. repeat split; try assumption. now apply nonEmpty_true.
    + intros e He Hb Hp.
      assert (Hf : In e (List.filter keyNotBlank (queryParams s))).
      { apply List.filter_In. split; [exact He|]. now apply nonEmpty_true. }
      destruct (lastValue_found e _ Hf) as (v & Hv).
      exists v. apply Hin. now split.
  - intros s e Hq Hb Hp.
    assert (Hf : List.filter keyNotBlank (queryParams s) = [e]).
    { rewrite Hq. simpl. unfold keyNotBlank.
      apply nonEmpty_true in Hb. now rewrite Hb. }
    assert (Hne : List.filter keyNotBlank (queryParams s) <> [])
      by (rewrite Hf; discriminate).
    destruct (query_pairs_spec s Hne) as (pairs & E & _ & _ & Hd).
    rewrite E, Hd; rewrite Hf.
    + reflexivity.
    + repeat constructor. intros [].
    + simpl. now rewrite Hp.
  - reflexivity.
  - intros H. discriminate H.
Qed.

Lemma query_pairs_untrimmed_witness :
  queryParams paddedParam = [mkKeyValue 1700000000000 " a " "b"]
  /\ trim " a " = "a"
  /\ finalUrl paddedParam = apiUrl paddedParam ++ "?+a+=b".
Proof.
  split; [reflexivity|]. split; [reflexivity|].
  refine (proj1 (proj2 query_pairs_untrimmed) paddedParam
                (mkKeyValue 1700000000000 " a " "b") eq_refl _ eq_refl).
  intros H. discriminate H.
Defined.

(** * Further properties of the handlers *)

(** ** Updating and removing rows *)

Lemma withField_updatedTo (i : Z) (field : Field) (v : string) (e : KeyValue) :
  updatedTo i field v e (if (id e =? i)%Z then withField e field v else e).
Proof.
  unfold updatedTo. destruct (Z.eqb_spec (id e) i) as [E|E].
  - destruct field; simpl; repeat split; intros; congruence.
  - repeat split; intros; congruence.
Qed.

Lemma map_updatedTo (i : Z) (field : Field) (v : string) (l : list KeyValue) :
  List.Forall2 (updatedTo i field v) l
    (List.map (fun param => if (id param =? i)%Z then withField param field v else param) l).
Proof.
  induction l as [|e l IH]; simpl; constructor; [apply withField_updatedTo|exact IH].
Qed.

(** X1. An update by id goes through the list position by position: every
    entry keeps its id and its other field; the entries of that id, all of
    them, get the new value in the named field; the others are the same
    entries. The rest of the state is untouched. *)
Theorem update_by_id (i : Z) (field : Field) (v : string) (s : State) :
  List.Forall2 (updatedTo i field v)
               (queryParams s) (queryParams (updateQueryParam i field v s))
  /\ updateQueryParam i field v s
     = setQueryParams (queryParams (updateQueryParam i field v s)) s
  /\ List.Forall2 (updatedTo i field v)
                  (headers s) (headers (updateHeader i field v s))
  /\ updateHeader i field v s = setHeaders (headers (updateHeader i field v s)) s.
Proof.
  repeat split; try apply map_updatedTo.
Qed.

Lemma map_update_twice (i : Z) (field : Field) (v w : string) (l : list KeyValue) :
  List.map (fun param => if (id param =? i)%Z then withField param field w else param)
    (List.map (fun param => if (id param =? i)%Z then withField param field v else param) l)
  = List.map (fun param => if (id param =? i)%Z then withField param field w else param) l.
Proof.
  rewrite List.map_map. apply List.map_ext. intros e.
  destruct (Z.eqb_spec (id e) i) as [E|E].
  - rewrite withField_id. apply Z.eqb_eq in E. rewrite E. now destruct field.
  - apply Z.eqb_neq in E. now rewrite E.
Qed.

Lemma map_update_swap (i j : Z) (v w : string) (l : list KeyValue) :
  List.map (fun param => if (id param =? j)%Z then withField param field_value w else param)
    (List.map (fun param => if (id param =? i)%Z then withField param field_key v else param) l)
  = List.map (fun param => if (id param =? i)%Z then withField param field_key v else param)
      (List.map (fun param => if (id param =? j)%Z
                              then withField param field_value w else param) l).
Proof.
  rewrite !List.map_map. apply List.map_ext. intros e.
  destruct (id e =? i)%Z eqn:Ei; destruct (id e =? j)%Z eqn:Ej;
    rewrite ?withField_id, ?Ei, ?Ej; reflexivity.
Qed.

(** X2. Updates compose: of two updates of the same field by the same id
    the later one stands; an update of the key and an update of the value
    can be made in either order, whatever the ids. *)
Theorem update_composition (i j : Z) (field : Field) (v w : string) (s : State) :
  updateQueryParam i field w (updateQueryParam i field v s) = updateQueryParam i field w s
  /\ updateQueryParam j field_value w (updateQueryParam i field_key v s)
     = updateQueryParam i field_key v (updateQueryParam j field_value w s)
  /\ updateHeader i field w (updateHeader i field v s) = updateHeader i field w s
  /\ updateHeader j field_value w (updateHeader i field_key v s)
     = updateHeader i field_key v (updateHeader j field_value w s).
Proof.
  unfold updateQueryParam, updateHeader, setQueryParams, setHeaders; simpl.
  repeat split; f_equal; solve [apply map_update_twice | apply map_update_swap].
Qed.

Lemma filter_id_In (i : Z) (l : list KeyValue) (e : KeyValue) :
  In e (List.filter (fun param => negb (id param =? i)%Z) l) <-> In e l /\ id e <> i.
Proof.
  rewrite List.filter_In. split; intros [H1 H2]; split; try assumption.
  - intros E. apply Z.eqb_eq in E. now rewrite E in H2.
  - apply Z.eqb_neq in H2. now rewrite H2.
Qed.

Lemma filter_id_twice (i j : Z) (l : list KeyValue) :
  List.filter (fun param => negb (id param =? j)%Z)
              (List.filter (fun param => negb (id param =? i)%Z) l)
  = List.filter (fun param => negb (id param =? i)%Z)
                (List.filter (fun param => negb (id param =? j)%Z) l).
Proof.
  induction l as [|e l IH]; simpl; [reflexivity|].
  destruct (negb (id e =? i)%Z) eqn:Ei; destruct (negb (id e =? j)%Z) eqn:Ej;
    simpl; rewrite ?Ei, ?Ej, IH; reflexivity.
Qed.

Lemma filter_id_idem (i : Z) (l : list KeyValue) :
  List.filter (fun param => negb (id param =? i)%Z)
              (List.filter (fun param => negb (id param =? i)%Z) l)
  = List.filter (fun param => negb (id param =? i)%Z) l.
Proof.
  induction l as [|e l IH]; simpl; [reflexivity|].
  destruct (negb (id e =? i)%Z) eqn:Ei; simpl; rewrite ?Ei, IH; reflexivity.
Qed.

(** X3. Removing by id leaves exactly the entries of another id, every
    entry of that id being dropped however many there are; the list never
    grows; removing again changes nothing, and two removals can be made in
    either order. *)
Theorem remove_by_id (i j : Z) (s : State) :
  (forall e, In e (queryParams (removeQueryParam i s))
             <-> In e (queryParams s) /\ id e <> i)
  /\ (List.length (queryParams (removeQueryParam i s)) <= List.length (queryParams s))%nat
  /\ removeQueryParam i (removeQueryParam i s) = removeQueryParam i s
  /\ removeQueryParam j (removeQueryParam i s) = removeQueryParam i (removeQueryParam j s)
  /\ (forall e, In e (headers (removeHeader i s)) <-> In e (headers s) /\ id e <> i)
  /\ (List.length (headers (removeHeader i s)) <= List.length (headers s))%nat
  /\ removeHeader i (removeHeader i s) = removeHeader i s
  /\ removeHeader j (removeHeader i s) = removeHeader i (removeHeader j s).
Proof.
  unfold removeQueryParam, removeHeader, setQueryParams, setHeaders; simpl.
  split; [intros e; apply filter_id_In|].
  split; [apply List.filter_length_le|].
  split; [f_equal; apply filter_id_idem|].
  split; [f_equal; apply filter_id_twice|].
  split; [intros e; apply filter_id_In|].
  split; [apply List.filter_length_le|].
  split; f_equal; [apply filter_id_idem|apply filter_id_twice].
Qed.

Lemma filter_after_update (i : Z) (field : Field) (v : string) (l : list KeyValue) :
  List.filter (fun param => negb (id param =? i)%Z)
    (List.map (fun param => if (id param =? i)%Z then withField param field v else param) l)
  = List.filter (fun param => negb (id param =? i)%Z) l.
Proof.
  induction l as [|e l IH]; simpl; [reflexivity|].
  destruct (id e =? i)%Z eqn:Ei.
  - rewrite withField_id, Ei. simpl. exact IH.
  - rewrite Ei. simpl. now rewrite IH.
Qed.

Lemma update_after_filter (i : Z) (field : Field) (v : string) (l : list KeyValue) :
  List.map (fun param => if (id param =? i)%Z then withField param field v else param)
    (List.filter (fun param => negb (id param =? i)%Z) l)
  = List.filter (fun param => negb (id param =? i)%Z) l.
Proof.
  induction l as [|e l IH]; simpl; [reflexivity|].
  destruct (id e =? i)%Z eqn:Ei; simpl; [exact IH|]. now rewrite Ei, IH.
Qed.

(** X4. An edit of a row that is then removed is lost without a trace, and
    an edit that arrives after the removal, by the id of the removed row,
    does nothing. *)
Theorem update_and_remove (i : Z) (field : Field) (v : string) (s : State) :
  removeQueryParam i (updateQueryParam i field v s) = removeQueryParam i s
  /\ updateQueryParam i field v (removeQueryParam i s) = removeQueryParam i s
  /\ removeHeader i (updateHeader i field v s) = removeHeader i s
  /\ updateHeader i field v (removeHeader i s) = removeHeader i s.
Proof.
  unfold removeQueryParam, updateQueryParam, removeHeader, updateHeader,
    setQueryParams, setHeaders; simpl.
  repeat split; f_equal; solve [apply filter_after_update | apply update_after_filter].
Qed.

(** ** Strings *)

Section Strings.

Lemma append_nil_r (a : string) : a ++ "" = a.
Proof. induction a as [|c a IH]; simpl; [reflexivity|now rewrite IH]. Qed.

Lemma append_assoc (a b c : string) : (a ++ b) ++ c = a ++ (b ++ c).
Proof. induction a as [|x a IH]; simpl; [reflexivity|now rewrite IH]. Qed.

Lemma append_cancel_l (u a b : string) : u ++ a = u ++ b -> a = b.
Proof.
  induction u as [|c u IH]; simpl; intros H; [exact H|].
  injection H as H. now apply IH.
Qed.

Lemma append_eq_self (u a : string) : u ++ a = u -> a = "".
Proof. intros H. apply (append_cancel_l u). now rewrite append_nil_r. Qed.

Lemma chars_append (a b : string) :
  list_ascii_of_string (a ++ b)
  = (list_ascii_of_string a ++ list_ascii_of_string b)%list.
Proof. induction a as [|c a IH]; simpl; [reflexivity|now rewrite IH]. Qed.

Lemma concat_cons (x : string) (l : list string) :
  String.concat "" (x :: l) = x ++ String.concat "" l.
Proof. destruct l; simpl; [now rewrite append_nil_r|reflexivity]. Qed.

Lemma concatMap_cons (f : ascii -> string) (c : ascii) (s : string) :
  concatMap f (String c s) = f c ++ concatMap f s.
Proof. unfold concatMap. simpl list_ascii_of_string. simpl List.map. apply concat_cons. Qed.

End Strings.

(** ** Rows with a blank key *)

Lemma filter_keyNotBlank_idem (l : list KeyValue) :
  List.filter keyNotBlank (List.filter keyNotBlank l) = List.filter keyNotBlank l.
Proof.
  induction l as [|e l IH]; simpl; [reflexivity|].
  destruct (keyNotBlank e) eqn:E; simpl; rewrite ?E, IH; reflexivity.
Qed.

Lemma filter_keyNotBlank_added (l : list KeyValue) (now : Z) :
  List.filter keyNotBlank (l ++ [mkKeyValue now "" ""])%list = List.filter keyNotBlank l.
Proof. rewrite List.filter_app. simpl. apply List.app_nil_r. Qed.

Lemma finalUrl_filtered (s s' : State) :
  apiUrl s' = apiUrl s ->
  List.filter keyNotBlank (queryParams s') = List.filter keyNotBlank (queryParams s) ->
  finalUrl s' = finalUrl s.
Proof. intros Hu Hf. rewrite !finalUrl_cases, Hu, Hf. reflexivity. Qed.

Lemma fold_headers_filtered (l : list KeyValue) (acc : completion Headers.t) :
  List.fold_left
    (fun acc header =>
       requestHeaders <- acc ;;
       if keyNotBlank header
       then Headers.append (key header) (value header) requestHeaders
       else Return requestHeaders) (List.filter keyNotBlank l) acc
  = List.fold_left
      (fun acc header =>
         requestHeaders <- acc ;;
         if keyNotBlank header
         then Headers.append (key header) (value header) requestHeaders
         else Return requestHeaders) l acc.
Proof.
  revert acc. induction l as [|e l IH]; intros acc; simpl; [reflexivity|].
  destruct (keyNotBlank e) eqn:E; simpl.
  - rewrite E. apply IH.
  - rewrite IH. now destruct acc.
Qed.

Lemma requestHeaders_filtered (s : State) :
  requestHeaders (setHeaders (List.filter keyNotBlank (headers s)) s) = requestHeaders s.
Proof. unfold requestHeaders. simpl. apply fold_headers_filtered. Qed.

Lemma requestHeaders_added (s : State) (now : Z) :
  requestHeaders (addHeader now s) = requestHeaders s.
Proof.
  unfold requestHeaders. simpl. rewrite List.fold_left_app. simpl.
  match goal with |- (x <- ?c ;; _) = _ => now destruct c end.
Qed.

(** X5. A row just added, empty as it is, changes neither the request
    that would be sent nor the text that would be exported. *)
Theorem added_row_is_inert (now : Z) (s : State) :
  handleTestApi_request (addQueryParam now s) = handleTestApi_request s
  /\ handleTestApi_request (addHeader now s) = handleTestApi_request s
  /\ dataStr (addQueryParam now s) = dataStr s
  /\ dataStr (addHeader now s) = dataStr s.
Proof.
  split; [|split; [|split]].
  - unfold handleTestApi_request.
    rewrite (finalUrl_filtered s (addQueryParam now s) eq_refl
               (filter_keyNotBlank_added (queryParams s) now)).
    reflexivity.
  - unfold handleTestApi_request. rewrite requestHeaders_added.
    rewrite (finalUrl_filtered s (addHeader now s) eq_refl eq_refl). reflexivity.
  - unfold dataStr, apiConfig. simpl. now rewrite filter_keyNotBlank_added.
  - unfold dataStr, apiConfig. simpl. now rewrite filter_keyNotBlank_added.
Qed.

(** X6. The rows whose trimmed key is empty count for nothing, whatever
    their values: without them the request is the same (or the same
    throw), and so is the exported text. *)
Theorem blank_rows_are_inert (s : State) :
  let s' := setHeaders (List.filter keyNotBlank (headers s))
              (setQueryParams (List.filter keyNotBlank (queryParams s)) s) in
  handleTestApi_request s' = handleTestApi_request s
  /\ dataStr s' = dataStr s.
Proof.
  intros s'. split.
  - unfold handleTestApi_request.
    rewrite (finalUrl_filtered s s' eq_refl (filter_keyNotBlank_idem (queryParams s))).
    replace (requestHeaders s') with (requestHeaders s); [reflexivity|].
    symmetry. exact (requestHeaders_filtered s).
  - unfold dataStr, apiConfig, s'. simpl. now rewrite !filter_keyNotBlank_idem.
Qed.

(** ** The URL *)

(** X7. The query string is written after [apiUrl] without a look at it:
    the URL is [apiUrl] followed by a text that the query parameters alone
    decide, so that a [?] already in [apiUrl] is followed by a second one.
    The URL is [apiUrl] itself exactly when no parameter passes the
    filter. *)
Theorem final_url_appends (s : State) :
  (forall u : string, finalUrl (setApiUrl u s) = u ++ finalUrl (setApiUrl "" s))
  /\ (finalUrl s = apiUrl s <-> List.filter keyNotBlank (queryParams s) = []).
Proof.
  split.
  - intros u. rewrite !finalUrl_cases. simpl.
    destruct (List.filter keyNotBlank (queryParams s)); simpl;
      [now rewrite append_nil_r|reflexivity].
  - rewrite finalUrl_cases. split.
    + destruct (List.filter keyNotBlank (queryParams s)); [reflexivity|].
      intros H. apply append_eq_self in H. discriminate H.
    + intros H. now rewrite H.
Qed.

Example final_url_second_question_mark :
  finalUrl (mkState "https://api.example.com/items?page=2" "GET"
                    [mkKeyValue 1 "limit" "10"] [] "" None false None)
  = "https://api.example.com/items?page=2?limit=10".
Proof. reflexivity. Qed.

(** ** The header list *)

Lemma append_returned (k v : string) (hl hl' : Headers.t) :
  Headers.append k v hl = Return hl' ->
  Headers.isHeaderName k = true
  /\ Headers.isHeaderValue (Headers.normalize v) = true
  /\ hl' = Headers.appendHeader k (Headers.normalize v) hl.
Proof.
  unfold Headers.append.
  destruct (Headers.isByteString k && Headers.isByteString v); simpl;
    [|intros H; discriminate H].
  destruct (Headers.isHeaderName k); simpl; [|intros H; discriminate H].
  destruct (Headers.isHeaderValue (Headers.normalize v)); simpl;
    [|intros H; discriminate H].
  intros H. injection H as <-. repeat split.
Qed.

Lemma appendHeader_valid (k v : string) (hl : Headers.t) :
  List.forallb validHeader hl = true ->
  Headers.isHeaderName k = true -> Headers.isHeaderValue v = true ->
  List.forallb validHeader (Headers.appendHeader k v hl) = true.
Proof.
  intros Hl Hk Hv. unfold Headers.appendHeader.
  rewrite List.forallb_app, Hl. simpl. rewrite andb_true_r.
  unfold validHeader at 1. simpl. rewrite Hv, andb_true_r.
  destruct (List.find (fun h => Headers.sameName (fst h) k) hl) as [h|] eqn:E;
    [|exact Hk].
  apply List.find_some in E as [Hin _].
  rewrite List.forallb_forall in Hl. specialize (Hl h Hin).
  unfold validHeader in Hl. now apply andb_prop in Hl as [Hl _].
Qed.

Lemma appendHeader_length (k v : string) (hl : Headers.t) :
  List.length (Headers.appendHeader k v hl) = S (List.length hl).
Proof. unfold Headers.appendHeader. rewrite List.length_app. simpl. lia. Qed.

Lemma requestHeaders_from (l : list KeyValue) (acc hl : Headers.t) :
  List.fold_left
    (fun acc header =>
       requestHeaders <- acc ;;
       if keyNotBlank header
       then Headers.append (key header) (value header) requestHeaders
       else Return requestHeaders) l (Return acc) = Return hl ->
  List.forallb validHeader acc = true ->
  List.forallb validHeader hl = true
  /\ List.length hl = (List.length acc + List.length (List.filter keyNotBlank l))%nat.
Proof.
  revert acc. induction l as [|e l IH]; intros acc H Hv; simpl in *.
  - injection H as <-. split; [exact Hv|lia].
  - destruct (keyNotBlank e) eqn:E.
    + destruct (Headers.append (key e) (value e) acc) as [acc'|thrown] eqn:Ea.
      * apply append_returned in Ea as (Hk & Hval & ->).
        destruct (IH _ H (appendHeader_valid _ _ _ Hv Hk Hval)) as [H1 H2].
        split; [exact H1|]. rewrite H2, appendHeader_length. simpl. lia.
      * rewrite fold_after_throw in H. discriminate H.
    + exact (IH acc H Hv).
Qed.

(** X8. When the headers are assembled without a throw, the header list
    has one header for each entry that passed the filter, and every header
    in it has a name that is an HTTP token and a value without NUL, CR or
    LF and without white space at either end. *)
Theorem request_headers_valid (s : State) (hl : Headers.t) :
  requestHeaders s = Return hl ->
  List.length hl = List.length (List.filter keyNotBlank (headers s))
  /\ List.forallb validHeader hl = true.
Proof.
  intros H. destruct (requestHeaders_from (headers s) [] hl H eq_refl) as [H1 H2].
  split; [exact H2|exact H1].
Qed.

Lemma request_headers_valid_witness :
  let s := setHeaders [mkKeyValue 1 "Accept" " */* "; mkKeyValue 2 "  " "x";
                       mkKeyValue 3 "accept" "text/html"]
                      (initialState 1700000000000) in
  let hl := [("Accept", "*/*"); ("Accept", "text/html")] in
  requestHeaders s = Return hl
  /\ List.length hl = List.length (List.filter keyNotBlank (headers s))
  /\ List.forallb validHeader hl = true.
Proof.
  intros s hl. split; [reflexivity|].
  exact (request_headers_valid s hl eq_refl).
Defined.

(** ** The characters of the query string *)

Section Alphabet.

Lemma allChars_append (P : ascii -> bool) (a b : string) :
  allChars P (a ++ b) = allChars P a && allChars P b.
Proof. unfold allChars. now rewrite chars_append, List.forallb_app. Qed.

Lemma allChars_concatMap (P : ascii -> bool) (f : ascii -> string) (s : string) :
  (forall c, allChars P (f c) = true) -> allChars P (concatMap f s) = true.
Proof.
  intros H. induction s as [|c s IH]; [reflexivity|].
  now rewrite concatMap_cons, allChars_append, H, IH.
Qed.

Lemma allChars_weaken (P Q : ascii -> bool) (s : string) :
  (forall c, P c = true -> Q c = true) -> allChars P s = true -> allChars Q s = true.
Proof.
  unfold allChars. intros H. rewrite !List.forallb_forall. auto.
Qed.

Lemma encodeByte_chars (c : ascii) :
  allChars encodedChar (URLSearchParams.encodeByte c) = true.
Proof. destruct c as [[] [] [] [] [] [] [] []]; reflexivity. Qed.

Lemma percentEncode_chars (s : string) :
  allChars encodedChar (URLSearchParams.percentEncode s) = true.
Proof. apply allChars_concatMap, encodeByte_chars. Qed.

Lemma encodedChar_queryChar (c : ascii) : encodedChar c = true -> queryChar c = true.
Proof. unfold queryChar. intros ->. reflexivity. Qed.

Lemma encodePair_chars (p : string * string) :
  allChars queryChar (encodePair p) = true.
Proof.
  unfold encodePair. rewrite !allChars_append.
  rewrite !(allChars_weaken encodedChar queryChar _ encodedChar_queryChar
              (percentEncode_chars _)).
  reflexivity.
Qed.

Lemma queryTail_cons (p : string * string) (l : list (string * string)) :
  queryTail (p :: l) = "&" ++ encodePair p ++ queryTail l.
Proof. unfold queryTail. simpl List.map. now rewrite concat_cons. Qed.

Lemma queryTail_chars (l : list (string * string)) :
  allChars queryChar (queryTail l) = true.
Proof.
  induction l as [|p l IH]; [reflexivity|].
  rewrite queryTail_cons. change ("&" ++ encodePair p ++ queryTail l)
    with (String "&" (encodePair p ++ queryTail l)).
  unfold allChars. simpl. fold (allChars queryChar (encodePair p ++ queryTail l)).
  now rewrite allChars_append, encodePair_chars, IH.
Qed.

Lemma encodePair_nonempty (p : string * string) : encodePair p <> "".
Proof.
  unfold encodePair. destruct (URLSearchParams.percentEncode (fst p)); discriminate.
Qed.

Lemma toString_from (l : list (string * string)) (output : string) :
  output <> "" ->
  List.fold_left
    (fun output tuple =>
       (if nonEmpty output then output ++ "&" else output)
       ++ URLSearchParams.percentEncode (fst tuple) ++ "="
       ++ URLSearchParams.percentEncode (snd tuple)) l output
  = output ++ queryTail l.
Proof.
  revert output. induction l as [|p l IH]; intros output H; simpl.
  - unfold queryTail. simpl. now rewrite append_nil_r.
  - apply nonEmpty_true in H. rewrite H. rewrite IH.
    + rewrite queryTail_cons. unfold encodePair. now rewrite !append_assoc.
    + destruct output; [discriminate H|]. discriminate.
Qed.

(** The serializer writes the pairs one after the other, with [&] between
    them. *)
Lemma toString_pairs (p : string * string) (l : list (string * string)) :
  URLSearchParams.toString (p :: l) = encodePair p ++ queryTail l.
Proof.
  unfold URLSearchParams.toString. cbn [List.fold_left nonEmpty].
  change ("" ++ URLSearchParams.percentEncode (fst p) ++ "="
             ++ URLSearchParams.percentEncode (snd p)) with (encodePair p).
  apply toString_from, encodePair_nonempty.
Qed.

Lemma toString_chars (l : list (string * string)) :
  allChars queryChar (URLSearchParams.toString l) = true.
Proof.
  destruct l as [|p l]; [reflexivity|].
  now rewrite toString_pairs, allChars_append, encodePair_chars, queryTail_chars.
Qed.

End Alphabet.

(** X9. Whatever the keys and values hold, what is written after [apiUrl]
    is nothing, or a [?] followed by ASCII letters, digits and the
    characters [* - . _ + % = &] only: no blank, no quote, no [#], no second
    [?] and no byte above 127 comes from the parameters. *)
Theorem query_string_characters (s : State) :
  exists q, finalUrl s = apiUrl s ++ q
            /\ (q = "" \/ exists r, q = "?" ++ r /\ allChars queryChar r = true).
Proof.
  rewrite finalUrl_cases.
  destruct (List.filter keyNotBlank (queryParams s)) as [|e l].
  - exists "". split; [now rewrite append_nil_r|now left].
  - eexists. split; [reflexivity|]. right. eexists. split; [reflexivity|].
    apply toString_chars.
Qed.

(** ** The query string can be read back *)

Section Decoding.

Lemma decode_encodeByte (c : ascii) (r : string) :
  percentDecode (URLSearchParams.encodeByte c ++ r) = String c (percentDecode r).
Proof. destruct c as [[] [] [] [] [] [] [] []]; reflexivity. Qed.

Lemma decode_percentEncode (s r : string) :
  percentDecode (URLSearchParams.percentEncode s ++ r) = s ++ percentDecode r.
Proof.
  unfold URLSearchParams.percentEncode.
  induction s as [|c s IH]; [reflexivity|].
  rewrite concatMap_cons, append_assoc, decode_encodeByte, IH. reflexivity.
Qed.

Lemma percentEncode_injective (a b : string) :
  URLSearchParams.percentEncode a = URLSearchParams.percentEncode b -> a = b.
Proof.
  intros H.
  pose proof (decode_percentEncode a "") as Ha.
  pose proof (decode_percentEncode b "") as Hb.
  rewrite append_nil_r in Ha, Hb. simpl in Ha, Hb. rewrite append_nil_r in Ha, Hb.
  congruence.
Qed.

(** A text without the separator, followed by nothing or by the separator:
    where the first part ends is known. *)
Lemma split_unique (P : ascii -> bool) (sep : ascii) (a a' r r' : string) :
  P sep = false ->
  allChars P a = true -> allChars P a' = true ->
  (r = "" \/ exists t, r = String sep t) ->
  (r' = "" \/ exists t, r' = String sep t) ->
  a ++ r = a' ++ r' -> a = a' /\ r = r'.
Proof.
  intros Hs. revert a'. induction a as [|c a IH]; intros a' Ha Ha' Hr Hr' H.
  - destruct a' as [|c' a']; [now split|]. simpl in H. exfalso.
    unfold allChars in Ha'. simpl in Ha'. apply andb_prop in Ha' as [Hc _].
    destruct Hr as [->|(t & ->)]; [discriminate H|].
    injection H as -> _. congruence.
  - destruct a' as [|c' a'].
    + simpl in H. exfalso.
      unfold allChars in Ha. simpl in Ha. apply andb_prop in Ha as [Hc _].
      destruct Hr' as [->|(t & ->)]; [discriminate H|].
      injection H as -> _. congruence.
    + simpl in H. injection H as -> H.
      unfold allChars in Ha, Ha'. simpl in Ha, Ha'.
      apply andb_prop in Ha as [_ Ha]. apply andb_prop in Ha' as [_ Ha'].
      destruct (IH a' Ha Ha' Hr Hr' H) as [-> ->]. now split.
Qed.

Lemma encodePair_injective (p p' : string * string) :
  encodePair p = encodePair p' -> p = p'.
Proof.
  destruct p as [k v], p' as [k' v']. unfold encodePair. simpl. intros H.
  destruct (split_unique encodedChar "=" _ _ _ _ eq_refl
              (percentEncode_chars k) (percentEncode_chars k')
              (or_intror (ex_intro _ _ eq_refl)) (or_intror (ex_intro _ _ eq_refl)) H)
    as [Hk Hv].
  injection Hv as Hv.
  apply percentEncode_injective in Hk, Hv. now subst.
Qed.

Lemma encodePair_no_amp (p : string * string) :
  allChars (fun c => encodedChar c || (code c =? 61)%N) (encodePair p) = true.
Proof.
  unfold encodePair. rewrite !allChars_append.
  rewrite !(allChars_weaken encodedChar (fun c => encodedChar c || (code c =? 61)%N) _
              (fun c (H : encodedChar c = true) => eq_trans (f_equal (fun b => b || _) H) eq_refl)
              (percentEncode_chars _)).
  reflexivity.
Qed.

Lemma queryTail_shape (l : list (string * string)) :
  queryTail l = "" \/ exists t, queryTail l = String "&" t.
Proof.
  destruct l as [|p l]; [now left|]. right. rewrite queryTail_cons. now eexists.
Qed.

Lemma queryTail_injective (l l' : list (string * string)) :
  queryTail l = queryTail l' -> l = l'.
Proof.
  revert l'. induction l as [|p l IH]; intros [|p' l'] H.
  - reflexivity.
  - rewrite queryTail_cons in H. discriminate H.
  - rewrite queryTail_cons in H. discriminate H.
  - rewrite !queryTail_cons in H. injection H as H.
    destruct (split_unique _ "&" _ _ _ _ eq_refl
                (encodePair_no_amp p) (encodePair_no_amp p')
                (queryTail_shape l) (queryTail_shape l') H) as [Hp Hl].
    apply encodePair_injective in Hp. apply IH in Hl. now subst.
Qed.

Lemma toString_injective (l l' : list (string * string)) :
  URLSearchParams.toString l = URLSearchParams.toString l' -> l = l'.
Proof.
  destruct l as [|p l], l' as [|p' l']; rewrite ?toString_pairs; intros H.
  - reflexivity.
  - exfalso. change (URLSearchParams.toString []) with "" in H.
    apply (encodePair_nonempty p'). destruct (encodePair p'); [reflexivity|discriminate H].
  - exfalso. change (URLSearchParams.toString []) with "" in H.
    apply (encodePair_nonempty p). destruct (encodePair p); [reflexivity|discriminate H].
  - destruct (split_unique _ "&" _ _ _ _ eq_refl
                (encodePair_no_amp p) (encodePair_no_amp p')
                (queryTail_shape l) (queryTail_shape l') H) as [Hp Hl].
    apply encodePair_injective in Hp. apply queryTail_injective in Hl. now subst.
Qed.

End Decoding.

(** X10. The query string loses nothing: when the retained parameters of
    two states have distinct keys, none an array index or [__proto__], and
    the two states have the same [apiUrl], the same URL means the same
    names and values in the same order. *)
Theorem query_string_faithful (s s' : State) :
  apiUrl s = apiUrl s' -> plainParams s -> plainParams s' ->
  finalUrl s = finalUrl s' ->
  List.map pairOf (List.filter keyNotBlank (queryParams s))
  = List.map pairOf (List.filter keyNotBlank (queryParams s')).
Proof.
  intros Hu [Hd Hp] [Hd' Hp'] H. rewrite !finalUrl_cases, <- Hu in H.
  pose proof (paramsRecord_plain _ Hd Hp) as E.
  pose proof (paramsRecord_plain _ Hd' Hp') as E'.
  destruct (List.filter keyNotBlank (queryParams s)) as [|e l];
    destruct (List.filter keyNotBlank (queryParams s')) as [|e' l'].
  - reflexivity.
  - symmetry in H. apply append_eq_self in H. discriminate H.
  - apply append_eq_self in H. discriminate H.
  - rewrite E, E' in H. apply append_cancel_l in H. injection H as H.
    now apply toString_injective.
Qed.

Lemma query_string_faithful_witness :
  let s := filterScenario in
  let s' := setQueryParams [mkKeyValue 5 "a" "b"; mkKeyValue 6 " " "dropped"] filterScenario in
  finalUrl s = finalUrl s'
  /\ List.map pairOf (List.filter keyNotBlank (queryParams s))
     = List.map pairOf (List.filter keyNotBlank (queryParams s')).
Proof.
  intros s s'. split; [reflexivity|].
  apply (query_string_faithful s s' eq_refl).
  - split; [repeat constructor; intros []|reflexivity].
  - split; [repeat constructor; intros []|reflexivity].
  - reflexivity.
Defined.

(** ** The exported link *)

(** X11. The link of the export is the fixed prefix followed by ASCII
    letters, digits, the marks [-_.!~*'()] and [%] only, whatever the state
    holds: the exported text never breaks out of the [href]. *)
Theorem data_uri_characters (s : State) :
  exists payload,
    dataUri s = "data:application/json;charset=utf-8," ++ payload
    /\ allChars uriChar payload = true.
Proof.
  eexists. split; [reflexivity|].
  unfold encodeURIComponent. apply allChars_concatMap.
  intros c. destruct c as [[] [] [] [] [] [] [] []]; reflexivity.
Qed.

(** ** One run of [handleTestApi] *)

(** X12. A run leaves the builder as it was. When the assembly throws, no
    request is made and the page stays loading with nothing shown; when
    the request is made, the run ends not loading, with either a response
    and no error or an error and no response. *)
Theorem run_outcomes (fetch : Fetch) (s : State) :
  let s' := handleTestApi fetch s in
  sameBuilder s s'
  /\ match handleTestApi_request s with
     | Throw _ => isLoading s' = true /\ response s' = None /\ error s' = None
     | Return _ =>
         isLoading s' = false
         /\ ((exists text, response s' = Some text /\ error s' = None)
             \/ (response s' = None /\ exists text, error s' = Some text))
     end.
Proof.
  intros s'. unfold s', handleTestApi, sameBuilder.
  destruct (handleTestApi_request s) as [[url init]|thrown].
  - unfold handleTestApi_settle, handleTestApi_try.
    destruct (fetch url init) as [res|m]; [destruct (Response.json res) as [data|m]|];
      simpl; repeat split; eauto.
  - simpl. repeat split.
Qed.

(** ** The session, further *)

(** X13. In every state a session reaches, the error and the response are
    never on the page together, and the invitation to send a request is
    there exactly when nothing else is. Outside the setter calls that end
    a run, hence at every commit when React applies those calls together,
    exactly one of the four parts of the response panel is on the page;
    between those calls the spinner may be there with the response or the
    error just set, never more than two parts. *)
Theorem one_panel_shown (x : Session) :
  reachable x ->
  (settling x = [] -> panelsShown (render (ui x)) = 1%nat)
  /\ (1 <= panelsShown (render (ui x)) <= 2)%nat
  /\ (errorPanel (render (ui x)) = None \/ responsePanel (render (ui x)) = None)
  /\ (placeholder (render (ui x)) = true -> panelsShown (render (ui x)) = 1%nat).
Proof.
  intros H. destruct (reachable_invariant x H) as (Hx & [He Hr] & Hk).
  assert (Hq : settling x = [] ->
               isLoading (ui x) = true -> response (ui x) = None /\ error (ui x) = None).
  { intros E. rewrite E in Hk. exact (proj1 Hk). }
  clear Hk. unfold panelsShown, render. simpl.
  destruct (error (ui x)) as [e|]; destruct (response (ui x)) as [r|]; simpl.
  - destruct Hx as [Hx|Hx]; discriminate Hx.
  - specialize (He e eq_refl). apply nonEmpty_true in He. rewrite He.
    destruct (isLoading (ui x)); simpl; repeat split; auto; try lia;
      try (intros Hp; discriminate Hp).
    intros E. destruct (Hq E eq_refl) as [_ Hn]. discriminate Hn.
  - specialize (Hr r eq_refl). apply nonEmpty_true in Hr. rewrite Hr.
    destruct (isLoading (ui x)); simpl; repeat split; auto; try lia;
      try (intros Hp; discriminate Hp).
    intros E. destruct (Hq E eq_refl) as [Hn _]. discriminate Hn.
  - destruct (isLoading (ui x)); simpl; repeat split; auto; lia.
Qed.

Lemma one_panel_shown_witness :
  let s := handleTestApi (fun _ _ => Rejected "Failed to fetch")
                         (initialState 1700000000000) in
  reachable (mkSession s 0)
  /\ errorPanel (render s) = Some "Error: Failed to fetch"
  /\ panelsShown (render s) = 1%nat.
Proof.
  intros s.
  assert (H : reachable (mkSession s 0)).
  { unfold s. eapply reachable_steps;
      [|apply (settle_steps (Rejected "Failed to fetch") _ 0)].
    eapply reachable_step; [apply (reachable_initial 1700000000000)|].
    eapply step_test_fetch; reflexivity. }
  split; [exact H|]. split; [reflexivity|].
  exact (proj1 (one_panel_shown _ H) eq_refl).
Defined.

(** Between [setResponse] and [setIsLoading(false)], committed one by one,
    the spinner and the response are on the page together. *)
Example two_panels_between_calls :
  let text := stringifyObject [("status", JSON.ofZ 200); ("statusText", VString "OK");
                               ("data", VNull)] 2 in
  let s := setResponse (Some text) (handleTestApi_begin (initialState 1700000000000)) in
  loadingPanel (render s) = true /\ responsePanel (render s) = Some text
  /\ panelsShown (render s) = 2%nat.
Proof. repeat split. Qed.

(** X14. At most one request is awaited at any time, and while one is
    awaited the button [Test API] is disabled. *)
Theorem single_request_in_flight (x : Session) :
  reachable x ->
  (pending x <= 1)%nat
  /\ (pending x = 1%nat -> testDisabled (render (ui x)) = true).
Proof.
  intros H. destruct (reachable_invariant x H) as (_ & _ & Hk).
  destruct (settling x) as [|u rest].
  - destruct Hk as [_ [Hp|[Hp Hl]]].
    + split; [lia|]. intros E. rewrite Hp in E. discriminate E.
    + split; [lia|]. intros _. exact Hl.
  - destruct Hk as (Hp & Hl & _). split; [lia|]. intros _. exact Hl.
Qed.

Lemma single_request_in_flight_witness :
  let x := mkSession (handleTestApi_begin (initialState 1700000000000)) 1 in
  reachable x /\ (pending x <= 1)%nat /\ testDisabled (render (ui x)) = true.
Proof.
  intros x.
  assert (H : reachable x).
  { unfold x. eapply reachable_step; [apply (reachable_initial 1700000000000)|].
    eapply step_test_fetch; reflexivity. }
  split; [exact H|].
  destruct (single_request_in_flight x H) as [H1 H2].
  split; [exact H1|exact (H2 eq_refl)].
Defined.

Lemma step_stuck (x y : Session) :
  settling x = [] /\ isLoading (ui x) = true /\ pending x = 0%nat
  /\ response (ui x) = None /\ error (ui x) = None ->
  step x y ->
  settling y = [] /\ isLoading (ui y) = true /\ pending y = 0%nat
  /\ response (ui y) = None /\ error (ui y) = None.
Proof.
  intros (Hk & Hl & Hp & Hr & He) Hs.
  destruct Hs as [a s n Ho | s n m Hi Hq | s n r Hi Hq | s n outcome | s n u rest];
    simpl in *.
  - destruct (perform_display a s) as (El & Er & Ee).
    repeat split; try congruence.
    + destruct Er as [Er|Er]; congruence.
    + destruct Ee as [Ee|Ee]; congruence.
  - congruence.
  - congruence.
  - discriminate Hp.
  - discriminate Hk.
Qed.

(** X15. When the headers make [Headers.append] throw, the click on
    [Test API] sets the page loading and nothing ever ends it: whatever is
    done next, the page stays loading, the button stays disabled, no
    request is awaited and neither a response nor an error is shown. *)
Theorem throw_leaves_page_loading (s : State) (thrown : string) (y : Session) :
  isLoading s = false ->
  handleTestApi_request s = Throw thrown ->
  steps (mkSession (handleTestApi_begin s) 0) y ->
  step (mkSession s 0) (mkSession (handleTestApi_begin s) 0)
  /\ isLoading (ui y) = true
  /\ testDisabled (render (ui y)) = true
  /\ pending y = 0%nat
  /\ response (ui y) = None /\ error (ui y) = None.
Proof.
  intros Hi Hq Hs. split; [now apply (step_test_throw s 0 thrown)|].
  cut (settling y = [] /\ isLoading (ui y) = true /\ pending y = 0%nat
       /\ response (ui y) = None /\ error (ui y) = None); [tauto|].
  remember (mkSession (handleTestApi_begin s) 0) as x eqn:Ex.
  induction Hs as [x|x y z _ IH Hyz].
  - subst x. repeat split.
  - exact (step_stuck y z (IH Ex) Hyz).
Qed.

Lemma throw_leaves_page_loading_witness :
  let s := setHeaders [mkKeyValue 1 "Content Type" "text/plain"]
                      (initialState 1700000000000) in
  let y := mkSession (removeHeader 1 (handleTestApi_begin s)) 0 in
  handleTestApi_request y.(ui) = Return ("https://jsonplaceholder.typicode.com/posts/1",
                                         RequestInit.mk "GET" [] None)
  /\ isLoading (ui y) = true
  /\ testDisabled (render (ui y)) = true.
Proof.
  intros s y. split; [reflexivity|].
  assert (Hs : steps (mkSession (handleTestApi_begin s) 0) y).
  { eapply steps_more; [apply steps_none|].
    apply (step_action (RemoveHeader 1)). simpl. now left. }
  destruct (throw_leaves_page_loading s "TypeError" y eq_refl eq_refl Hs)
    as (_ & H1 & H2 & _).
  split; [exact H1|exact H2].
Defined.

(** X16. The method is always one of the seven of the [select]. *)
Theorem method_is_an_option (x : Session) :
  reachable x -> In (apiMethod (ui x)) methodOptions.
Proof.
  induction 1 as [now|x y _ IH Hs].
  - simpl. now left.
  - destruct Hs as [a s n Ho | s n m Hi Hq | s n r Hi Hq | s n outcome | s n u rest];
      simpl in *; try exact IH.
    + destruct a; simpl in *; try exact IH; [exact Ho|]. right. now left.
    + destruct u; exact IH.
Qed.

Lemma method_is_an_option_witness :
  let x := mkSession (loadExample 1700000000005 1700000000005
                                  (initialState 1700000000000)) 0 in
  reachable x /\ In (apiMethod (ui x)) methodOptions.
Proof.
  intros x.
  assert (H : reachable x).
  { unfold x. eapply reachable_step; [apply (reachable_initial 1700000000000)|].
    apply (step_action (LoadExample 1700000000005 1700000000005)). exact I. }
  split; [exact H|exact (method_is_an_option x H)].
Defined.

(** X17. What is done to the builder while the request is awaited does not
    change how the run ends: but for [loadExample], an action and the end
    of the run can be taken in either order; and after [loadExample] the
    response of the request sent before it is shown all the same, beside
    the example. *)
Theorem edits_while_awaiting (a : Action) (outcome : settled Response.t) (s : State) :
  (forall now1 now2, a <> LoadExample now1 now2) ->
  perform a (handleTestApi_settle outcome s) = handleTestApi_settle outcome (perform a s)
  /\ (forall now1 now2,
         response (handleTestApi_settle outcome (loadExample now1 now2 s))
         = response (handleTestApi_settle outcome s)
         /\ sameBuilder (loadExample now1 now2 s)
                        (handleTestApi_settle outcome (loadExample now1 now2 s))).
Proof.
  intros Ha. unfold handleTestApi_settle, handleTestApi_try, sameBuilder. split.
  - destruct outcome as [res|m]; [destruct (Response.json res) as [data|m]|];
      destruct a; try reflexivity; exfalso; eapply Ha; reflexivity.
  - intros now1 now2.
    destruct outcome as [res|m]; [destruct (Response.json res) as [data|m]|];
      simpl; repeat split.
Qed.

Lemma edits_while_awaiting_witness :
  let outcome := Fulfilled (Response.mk 200 "OK" (Fulfilled VNull)) in
  let s := handleTestApi_begin (initialState 1700000000000) in
  perform (AddQueryParam 1700000000007) (handleTestApi_settle outcome s)
  = handleTestApi_settle outcome (perform (AddQueryParam 1700000000007) s).
Proof.
  intros outcome s.
  refine (proj1 (edits_while_awaiting (AddQueryParam 1700000000007) outcome s _)).
  intros now1 now2 H. discriminate H.
Defined.

(** ** [loadExample], further *)

(** X18. Of the state before it [loadExample] keeps the pending flag and
    nothing else. The ids of its two headers are the first reading of the
    clock and the second reading plus one: they are distinct unless the
    clock went back by exactly one millisecond between the two readings,
    and then they are equal. The request of the example is always
    assembled without a throw: a POST with the two headers and the JSON
    text of the example as its body. *)
Theorem load_example_state (now1 now2 : Z) (s : State) :
  loadExample now1 now2 s
  = setIsLoading (isLoading s) (loadExample now1 now2 (initialState 0))
  /\ List.map id (headers (loadExample now1 now2 s)) = [now1; (now2 + 1)%Z]
  /\ (idsDistinct (loadExample now1 now2 s) <-> now1 <> (now2 + 1)%Z)
  /\ handleTestApi_request (loadExample now1 now2 s)
     = Return ("https://jsonplaceholder.typicode.com/posts",
               RequestInit.mk "POST"
                 [("Content-Type", "application/json");
                  ("Authorization", "Bearer YOUR_TOKEN_HERE")]
                 (Some (requestBody (loadExample now1 now2 s)))).
Proof.
  split; [reflexivity|]. split; [reflexivity|]. split; [|reflexivity].
  unfold idsDistinct. simpl. split.
  - intros [_ H] E. inversion H as [|? ? Hn _]; subst. apply Hn. now left.
  - intros H. split; [constructor|].
    repeat constructor; simpl; [intros [E|[]]; congruence|intros []].
Qed.

(** The clock set back by a millisecond between the two readings: one id
    for the two headers. *)
Example load_example_clock_back :
  List.map id (headers (loadExample 1700000000001 1700000000000
                                    (initialState 1690000000000)))
  = [1700000000001; 1700000000001]%Z.
Proof. reflexivity. Qed.

(** ** The body, sent and exported *)

(** X19. The export does not look at what the body text holds: for POST,
    PUT and PATCH a body text that is blank is exported as [requestBody]
    all the same, while the request carries no body. *)
Theorem blank_body_exported_not_sent (s : State) (url : string) (init : RequestInit.t) :
  handleTestApi_request s = Return (url, init) ->
  includes methodsWithBody (apiMethod s) = true ->
  trim (requestBody s) = "" ->
  RequestInit.body init = None
  /\ getProperty "requestBody" (apiConfig s) = Some (VString (requestBody s))
  /\ dataStr s
     = stringifyObject
         [("apiUrl", VString (apiUrl s));
          ("apiMethod", VString (apiMethod s));
          ("queryParams",
           VArray (List.map KeyValue_value (List.filter keyNotBlank (queryParams s))));
          ("headers",
           VArray (List.map KeyValue_value (List.filter keyNotBlank (headers s))));
          ("requestBody", VString (requestBody s))] 2.
Proof.
  intros H Hm Hb. apply request_options in H as (hl & _ & _ & ->).
  unfold requestOptions, dataStr, apiConfig. rewrite Hm, Hb. simpl. repeat split.
Qed.

Lemma blank_body_exported_not_sent_witness :
  let s := setRequestBody "   " (setApiMethod "PUT" (initialState 1700000000000)) in
  let init := RequestInit.mk "PUT" [("Content-Type", "application/json")] None in
  handleTestApi_request s = Return ("https://jsonplaceholder.typicode.com/posts/1", init)
  /\ RequestInit.body init = None
  /\ getProperty "requestBody" (apiConfig s) = Some (VString "   ").
Proof.
  intros s init.
  assert (H : handleTestApi_request s
              = Return ("https://jsonplaceholder.typicode.com/posts/1", init))
    by reflexivity.
  split; [exact H|].
  destruct (blank_body_exported_not_sent s _ init H eq_refl eq_refl) as (H1 & H2 & _).
  split; [exact H1|exact H2].
Defined.
